(** * A shallow embedding of the [Result] library and of the Turnstile wrapper

    The TypeScript sources are embedded as functions of a small state and
    exception monad over an explicit JavaScript store:

    - values are the untyped host values ([Val]); objects live in a store
      and are handled by reference, so that [this as unknown as Result<U, E>]
      is the receiver itself and not a copy of it;
    - a [throw] is the [Thrown] outcome of the monad;
    - an [async] function is a resumption ([Async]): synchronous steps
      separated by [await]s, whose state is the state of the promise the
      function returned.

    Sources: [packages/result/result.ts] (class [Result], class [Panic]),
    [packages/result/controlFlow.ts], [packages/cf-turnstile/validate.ts],
    [packages/cf-turnstile/error.ts], [packages/cf-turnstile/types.ts]. *)

From Stdlib Require Import ZArith Bool Lia.
From stdpp Require Import base list strings.

Set Default Proof Using "Type".

Local Open Scope string_scope.
Local Open Scope list_scope.

(** ** Host values and the store *)

(** A store location: the index of an object in the store. *)
Definition loc := nat.

(** Host values.  Numbers are the integer-valued ones; functions that end
    up in a property (the [then] of a thenable) are opaque identities, while
    the callbacks handed to the methods are Rocq functions. *)
Inductive Val : Type :=
| VUndefined
| VNull
| VBool (b : bool)
| VNum (n : Z)
| VStr (s : string)
| VSymbol (id : nat)
| VFun (id : nat)
| VObj (l : loc).

(** The classes whose instances the program creates or tests for. *)
Inductive Class : Type :=
| ClsObject          (* an object literal *)
| ClsResult          (* class Result *)
| ClsPanic           (* class Panic extends Error *)
| ClsTurnstileError  (* class TurnstileError extends Error *)
| ClsCfTurnstile     (* class CfTurnstile *)
| ClsTypeError.      (* the host's TypeError *)

Inductive PromiseState : Type :=
| Pending
| Fulfilled (v : Val)
| Rejected (reason : Val).

(** Store objects: ordinary objects with their class and own data
    properties, host promises with their internal state, arrays. *)
Inductive Obj : Type :=
| Object (cls : Class) (props : list (string * Val))
| PromiseObj (st : PromiseState)
| ArrayObj (items : list Val).

(** What a handler announces when it is instrumented with [spy]. *)
Inductive Event : Type :=
| Invoked (handler : string) (arg : Val).

Record World : Type := mkWorld {
  w_heap : list Obj;        (* the store; a location is an index *)
  w_symbols : list string;  (* descriptions of the symbols created so far *)
  w_trace : list Event      (* invocations announced so far *)
}.

Definition initial_world : World := mkWorld [] [] [].

(** ** The monad of synchronous code: state and exceptions *)

Inductive Outcome (A : Type) : Type :=
| Returned (a : A)
| Thrown (e : Val).
Arguments Returned {A} a.
Arguments Thrown {A} e.

Definition M (A : Type) : Type := World -> Outcome A * World.

Definition ret {A} (a : A) : M A := fun w => (Returned a, w).

Definition throw {A} (e : Val) : M A := fun w => (Thrown e, w).

Definition bind {A B} (m : M A) (k : A -> M B) : M B :=
  fun w =>
    match m w with
    | (Returned a, w') => k a w'
    | (Thrown e, w') => (Thrown e, w')
    end.

Notation "x <- m ;; k" := (bind m (fun x => k))
  (at level 20, m at level 99, k at level 200, only parsing).
Notation "m ;;; k" := (bind m (fun _ => k))
  (at level 100, k at level 200, right associativity, only parsing).

(** [try { body } catch (e) { handler(e) }] *)
Definition try_catch {A} (body : M A) (handler : Val -> M A) : M A :=
  fun w =>
    match body w with
    | (Returned a, w') => (Returned a, w')
    | (Thrown e, w') => handler e w'
    end.

(** ** Primitive operations of the host *)

(** Creating an object: it gets the next free location. *)
Definition alloc (o : Obj) : M Val :=
  fun w =>
    (Returned (VObj (length (w_heap w))),
     mkWorld (w_heap w ++ [o]) (w_symbols w) (w_trace w)).

(** Overwriting the object at a location (property assignment by user code,
    settlement of a promise by the host).  No method of [Result] uses it. *)
Definition store (l : loc) (o : Obj) : M unit :=
  fun w =>
    (Returned tt, mkWorld (<[l := o]> (w_heap w)) (w_symbols w) (w_trace w)).

(** [Symbol(description)]: a symbol that no earlier call returned. *)
Definition Symbol (description : string) : M Val :=
  fun w =>
    (Returned (VSymbol (length (w_symbols w))),
     mkWorld (w_heap w) (w_symbols w ++ [description]) (w_trace w)).

Definition emit (ev : Event) : M unit :=
  fun w => (Returned tt, mkWorld (w_heap w) (w_symbols w) (w_trace w ++ [ev])).

(** A handler that announces each of its invocations before it runs. *)
Definition spy (name : string) (h : Val -> M Val) : Val -> M Val :=
  fun x => emit (Invoked name x) ;;; h x.

Definition throw_TypeError {A} (message : string) : M A :=
  e <- alloc (Object ClsTypeError [("message", VStr message)]) ;;
  throw e.

Fixpoint lookup_prop (key : string) (props : list (string * Val)) : option Val :=
  match props with
  | [] => None
  | (k, v) :: rest => if String.eqb k key then Some v else lookup_prop key rest
  end.

(** [o.key] for an own data property of an ordinary object: [undefined]
    when [o] has no such property, a TypeError when [o] is [undefined] or
    [null].  Methods are not properties here: they are the functions of
    this file; promises and arrays are read by their own operations. *)
Definition get_prop (o : Val) (key : string) : M Val :=
  fun w =>
    match o with
    | VUndefined | VNull =>
        throw_TypeError "Cannot read properties of undefined or null" w
    | VObj l =>
        match w_heap w !! l with
        | Some (Object _ props) =>
            (Returned (default VUndefined (lookup_prop key props)), w)
        | Some _ => (Returned VUndefined, w)
        | None => throw_TypeError "dangling reference" w
        end
    | _ => (Returned VUndefined, w)
    end.

(** The condition of an [if]: ToBoolean. *)
Definition truthy (v : Val) : bool :=
  match v with
  | VUndefined | VNull => false
  | VBool b => b
  | VNum n => negb (n =? 0)%Z
  | VStr s => negb (String.eqb s "")
  | VSymbol _ | VFun _ | VObj _ => true
  end.

(** [a === b]: primitives by value, symbols, functions and objects by
    identity. *)
Definition strict_equals (a b : Val) : bool :=
  match a, b with
  | VUndefined, VUndefined => true
  | VNull, VNull => true
  | VBool x, VBool y => Bool.eqb x y
  | VNum x, VNum y => (x =? y)%Z
  | VStr x, VStr y => String.eqb x y
  | VSymbol x, VSymbol y => Nat.eqb x y
  | VFun x, VFun y => Nat.eqb x y
  | VObj x, VObj y => Nat.eqb x y
  | _, _ => false
  end.

(** [v instanceof Promise]: [v] is an object created by the host's Promise
    class.  An object that merely has a [then] property is not. *)
Definition is_promise (w : World) (v : Val) : bool :=
  match v with
  | VObj l =>
      match w_heap w !! l with
      | Some (PromiseObj _) => true
      | _ => false
      end
  | _ => false
  end.

Definition instanceof_Promise (v : Val) : M bool :=
  fun w => (Returned (is_promise w v), w).

(** ** [class Panic extends Error] *)

Module Panic.

(** [constructor(message, cause) { super(message, { cause }) }] *)
Definition new (message : string) (cause : Val) : M Val :=
  alloc (Object ClsPanic [("message", VStr message); ("cause", cause)]).

End Panic.

(** ** [type ControlFlow<Break, Continue>]: the two object literals *)

Module ControlFlow.

Definition literal (isBreak : bool) (value : Val) : Obj :=
  Object ClsObject [("isBreak", VBool isBreak); ("value", value)].

End ControlFlow.

(** ** [class Result<T, E>] *)

Module Result.

(** [static readonly none: unique symbol = Symbol("none")]: the first
    symbol of the process, created when the module is loaded. *)
Definition none : Val := VSymbol 0.

Definition module_load : M Val := Symbol "none".

(** [constructor(public innerResult: ResultInner<T, E>) {}] *)
Definition new (innerResult : Val) : M Val :=
  alloc (Object ClsResult [("innerResult", innerResult)]).

(** [static ok(value)] *)
Definition ok (value : Val) : M Val :=
  inner <- alloc (Object ClsObject [("success", VBool true); ("value", value)]) ;;
  new inner.

(** [static err(value)] *)
Definition err (value : Val) : M Val :=
  inner <- alloc (Object ClsObject [("success", VBool false); ("value", value)]) ;;
  new inner.

(** [this.innerResult.success] and [this.innerResult.value] *)
Definition success (this : Val) : M Val :=
  inner <- get_prop this "innerResult" ;; get_prop inner "success".

Definition value (this : Val) : M Val :=
  inner <- get_prop this "innerResult" ;; get_prop inner "value".

(** The instance methods, in the order of the source. *)
Module prototype.

Definition match_ (this : Val) (ok err : Val -> M Val) : M Val :=
  s <- success this ;;
  if truthy s
  then v <- value this ;; ok v
  else v <- value this ;; err v.

Definition isOk (this : Val) : M Val := success this.

Definition isOkAnd (this : Val) (f : Val -> M Val) : M Val :=
  match_ this (fun value => f value) (fun _ => ret (VBool false)).

Definition isErr (this : Val) : M Val :=
  s <- success this ;; ret (VBool (negb (truthy s))).

Definition isErrAnd (this : Val) (f : Val -> M Val) : M Val :=
  match_ this (fun _ => ret (VBool false)) (fun err => f err).

(** [ok(noneSymbol?: boolean)]; an omitted argument is [undefined]. *)
Definition ok (this : Val) (noneSymbol : Val) : M Val :=
  s <- success this ;;
  if truthy s then value this
  else if truthy noneSymbol then ret none else ret VNull.

Definition err (this : Val) (noneSymbol : Val) : M Val :=
  s <- success this ;;
  if negb (truthy s) then value this
  else if truthy noneSymbol then ret none else ret VNull.

Definition map (this : Val) (op : Val -> M Val) : M Val :=
  match_ this
    (fun value => y <- op value ;; Result.ok y)
    (fun _ => ret this).

Definition mapOr (this : Val) (defaultValue : Val) (f : Val -> M Val) : M Val :=
  match_ this (fun value => f value) (fun _ => ret defaultValue).

Definition mapOrElse (this : Val) (defaultValue f : Val -> M Val) : M Val :=
  match_ this (fun value => f value) (fun error => defaultValue error).

Definition mapErr (this : Val) (op : Val -> M Val) : M Val :=
  match_ this
    (fun _ => ret this)
    (fun error => y <- op error ;; Result.err y).

Definition inspect (this : Val) (f : Val -> M Val) : M Val :=
  s <- success this ;;
  (if truthy s then v <- value this ;; f v ;;; ret tt else ret tt) ;;;
  ret this.

Definition inspectErr (this : Val) (f : Val -> M Val) : M Val :=
  s <- success this ;;
  (if negb (truthy s) then v <- value this ;; f v ;;; ret tt else ret tt) ;;;
  ret this.

Definition and_ (this : Val) (res : Val) : M Val :=
  match_ this (fun _ => ret res) (fun _ => ret this).

Definition andThen (this : Val) (op : Val -> M Val) : M Val :=
  match_ this (fun value => op value) (fun _ => ret this).

Definition or_ (this : Val) (res : Val) : M Val :=
  match_ this (fun _ => ret this) (fun _ => ret res).

Definition orElse (this : Val) (op : Val -> M Val) : M Val :=
  match_ this (fun _ => ret this) (fun error => op error).

Definition unwrap (this : Val) : M Val :=
  match_ this
    (fun value => ret value)
    (fun error =>
       p <- Panic.new "called `Result.unwrap()` on an `Err`" error ;;
       throw p).

Definition unwrapOr (this : Val) (defaultValue : Val) : M Val :=
  match_ this (fun value => ret value) (fun _ => ret defaultValue).

(** [defaultValue: () => T] takes no argument. *)
Definition unwrapOrElse (this : Val) (defaultValue : M Val) : M Val :=
  match_ this (fun value => ret value) (fun _ => defaultValue).

Definition orThrow (this : Val) : M Val :=
  match_ this (fun value => ret value) (fun error => throw error).

Definition branch (this : Val) : M Val :=
  match_ this
    (fun value => alloc (ControlFlow.literal false value))
    (fun _ => alloc (ControlFlow.literal true this)).

End prototype.

End Result.

(** ** Asynchronous functions *)

(** The body of an [async] function: synchronous steps and [await]s.  There
    is no handler in this language of bodies because the two [async]
    functions of the repository contain no [try]. *)
Inductive Async : Type :=
| Return_ (m : M Val)
| Do {X : Type} (m : M X) (k : X -> Async)
| Await (p : Val) (k : Val -> Async).

(** The state of the promise that the call of an [async] function returned:
    settled (fulfilled with the returned value, or rejected with the thrown
    one), or pending on the promise [p] with the rest of the body [k]. *)
Inductive AsyncState : Type :=
| Settled (o : Outcome Val)
| Suspended (p : Val) (k : Val -> Async).

(** What an [await] of [p] delivers in the world [w], if anything yet: the
    state of a host promise, the value itself when it is no promise.  The
    [then] of a thenable is user code outside this model: an [await] of a
    thenable delivers nothing here. *)
Definition await_settlement (w : World) (p : Val) : option (Outcome Val) :=
  match p with
  | VObj l =>
      match w_heap w !! l with
      | Some (PromiseObj Pending) => None
      | Some (PromiseObj (Fulfilled v)) => Some (Returned v)
      | Some (PromiseObj (Rejected reason)) => Some (Thrown reason)
      | Some (Object _ props) =>
          match lookup_prop "then" props with
          | Some (VFun _) => None
          | _ => Some (Returned p)
          end
      | Some (ArrayObj _) => Some (Returned p)
      | None => None
      end
  | _ => Some (Returned p)
  end.

(** Running a body as far as the promises settled in the world allow.  A
    rejection delivered by an [await] is thrown at the [await]; nothing in
    a body catches it, so it rejects the function's promise. *)
Fixpoint run (a : Async) (w : World) : AsyncState * World :=
  match a with
  | Return_ m => let '(o, w') := m w in (Settled o, w')
  | Do m k =>
      match m w with
      | (Returned x, w') => run (k x) w'
      | (Thrown e, w') => (Settled (Thrown e), w')
      end
  | Await p k =>
      match await_settlement w p with
      | Some (Returned x) => run (k x) w
      | Some (Thrown reason) => (Settled (Thrown reason), w)
      | None => (Suspended p k, w)
      end
  end.

(** Resuming a suspended body, in the world of that later moment, with the
    settlement of the promise it waited for. *)
Definition resume (k : Val -> Async) (settlement : Outcome Val) (w : World)
  : AsyncState * World :=
  match settlement with
  | Returned x => run (k x) w
  | Thrown reason => (Settled (Thrown reason), w)
  end.

(** [await callee(...)] for an [async] callee: the callee's body, then the
    rest of the caller's. *)
Fixpoint await_call (a : Async) (k : Val -> Async) : Async :=
  match a with
  | Return_ m => Do m k
  | Do m k' => Do m (fun x => await_call (k' x) k)
  | Await p k' => Await p (fun x => await_call (k' x) k)
  end.

Module ResultAsync.

(** [async awaited()] of class [Result]. *)
Definition awaited (this : Val) : Async :=
  Do (Result.success this) (fun s =>
    if truthy s then
      Do (Result.value this) (fun v =>
      Do (instanceof_Promise v) (fun isPromise =>
        if isPromise then
          Do (Result.value this) (fun p =>
          Await p (fun x => Return_ (Result.ok x)))
        else
          Do (Result.value this) (fun v' => Return_ (Result.ok v'))))
    else
      Do (Result.value this) (fun v =>
      Do (instanceof_Promise v) (fun isPromise =>
        if isPromise then
          Do (Result.value this) (fun p =>
          Await p (fun x => Return_ (Result.err x)))
        else
          Do (Result.value this) (fun v' => Return_ (Result.err v'))))).

End ResultAsync.

(** ** The Turnstile wrapper *)

Record Request : Type := mkRequest {
  req_url : string;
  req_method : string;
  req_body : list (string * Val)   (* the entries of the FormData *)
}.

Module TurnstileError.

Section WithHost.
(** The host's ToString for a value that is not a string. *)
Variable ToString : Val -> M string.

(** One element in [Array.prototype.join]. *)
Definition item_string (v : Val) : M string :=
  match v with
  | VUndefined | VNull => ret ""
  | VStr s => ret s
  | _ => ToString v
  end.

Fixpoint join_items (sep : string) (items : list Val) : M string :=
  match items with
  | [] => ret ""
  | [v] => item_string v
  | v :: rest =>
      s <- item_string v ;;
      t <- join_items sep rest ;;
      ret (s +:+ sep +:+ t)
  end.

(** [codes.join(sep)]: a TypeError when [codes] is no array. *)
Definition join (codes : Val) (sep : string) : M string :=
  fun w =>
    match codes with
    | VObj l =>
        match w_heap w !! l with
        | Some (ArrayObj items) => join_items sep items w
        | _ => throw_TypeError "codes.join is not a function" w
        end
    | _ => throw_TypeError "codes.join is not a function" w
    end.

(** [constructor(public codes) { super("..." + codes.join("', '") + "'") }] *)
Definition new (codes : Val) : M Val :=
  joined <- join codes "', '" ;;
  alloc (Object ClsTurnstileError
           [("message",
             VStr ("Cloudflare Turnstile returned error codes: '"
                   +:+ joined +:+ "'"));
            ("codes", codes)]).
End WithHost.

End TurnstileError.

Module CfTurnstile.

Definition ENDPOINT : string :=
  "https://challenges.cloudflare.com/turnstile/v0/siteverify".

(** [constructor(public secretKey: string) {}] *)
Definition new (secretKey : string) : M Val :=
  alloc (Object ClsCfTurnstile [("secretKey", VStr secretKey)]).

Definition withAlwaysPassesToken : M Val :=
  new "1x0000000000000000000000000000000AA".

Definition withAlwaysFailsToken : M Val :=
  new "2x0000000000000000000000000000000AA".

Definition withAlreadySpentErrorToken : M Val :=
  new "3x0000000000000000000000000000000AA".

Section WithHost.
(** The host: [fetch(request)] and [response.json()] return promises. *)
Variable fetch : Request -> M Val.
Variable json : Val -> M Val.
Variable ToString : Val -> M string.

(** [async req(request)] *)
Definition req (request : Request) : Async :=
  Do (fetch request) (fun p =>
  Await p (fun response =>
  Do (json response) (fun q =>
  Await q (fun result =>
  Return_ (ret result))))).

(** The entries appended to the [FormData], and the [Request]. *)
Definition form_data (secretKey token ip idempotencyKey : Val)
  : list (string * Val) :=
  [("secret", secretKey); ("response", token)]
  ++ (if truthy ip then [("remoteip", ip)] else [])
  ++ (if truthy idempotencyKey
      then [("idempotency_key", idempotencyKey)] else []).

Definition request_of (secretKey token ip idempotencyKey : Val) : Request :=
  mkRequest ENDPOINT "POST" (form_data secretKey token ip idempotencyKey).

(** [async validate(token, ip?, idempotencyKey?)] *)
Definition validate (this token ip idempotencyKey : Val) : Async :=
  Do (get_prop this "secretKey") (fun secretKey =>
    let request := request_of secretKey token ip idempotencyKey in
    await_call (req request) (fun response =>
      Do (get_prop response "success") (fun success =>
        if truthy success then
          Return_ (Result.ok response)
        else
          Do (get_prop response "error-codes") (fun codes =>
          Return_ (e <- TurnstileError.new ToString codes ;;
                   Result.err e))))).
End WithHost.

End CfTurnstile.

(** ** Observing a [Result] in the store *)

(** The two variants of [ResultInner<T, E>]: [Ok<T>] and [Err<E>]. *)
Inductive Variant : Type :=
| Ok (value : Val)
| Err (error : Val).

Definition is_ok (x : Variant) : bool :=
  match x with Ok _ => true | Err _ => false end.

Definition payload (x : Variant) : Val :=
  match x with Ok v => v | Err e => e end.

(** The same variant around another payload. *)
Definition with_payload (x : Variant) (v : Val) : Variant :=
  match x with Ok _ => Ok v | Err _ => Err v end.

Definition read_object (w : World) (v : Val)
  : option (Class * list (string * Val)) :=
  match v with
  | VObj l =>
      match w_heap w !! l with
      | Some (Object c props) => Some (c, props)
      | _ => None
      end
  | _ => None
  end.

(** The tag and the payload that [r], an instance of [Result], has in [w]:
    what [r.innerResult.success] and [r.innerResult.value] hold. *)
Definition variant_of (w : World) (r : Val) : option Variant :=
  match read_object w r with
  | Some (ClsResult, props) =>
      match lookup_prop "innerResult" props with
      | Some inner =>
          match read_object w inner with
          | Some (_, iprops) =>
              match lookup_prop "success" iprops, lookup_prop "value" iprops with
              | Some (VBool true), Some v => Some (Ok v)
              | Some (VBool false), Some e => Some (Err e)
              | _, _ => None
              end
          | None => None
          end
      | None => None
      end
  | _ => None
  end.

(** A handler that announces nothing by itself. *)
Definition silent (h : Val -> M Val) : Prop :=
  forall x w, w_trace (snd (h x w)) = w_trace w.

(** A computation that leaves a property of the world in place. *)
Definition preserves {A} (P : World -> Prop) (m : M A) : Prop :=
  forall w, P w -> P (snd (m w)).

(** The same for the body of an [async] function: across every synchronous
    step, whatever the [await]s deliver. *)
Fixpoint preserves_async (P : World -> Prop) (a : Async) : Prop :=
  match a with
  | Return_ m => preserves P m
  | Do m k => preserves P m /\ forall x, preserves_async P (k x)
  | Await _ k => forall x, preserves_async P (k x)
  end.

(** A call of one of the synchronous instance methods, with its arguments. *)
Inductive Call : Type :=
| CallIsOk
| CallIsOkAnd (f : Val -> M Val)
| CallIsErr
| CallIsErrAnd (f : Val -> M Val)
| CallOk (noneSymbol : Val)
| CallErr (noneSymbol : Val)
| CallMap (op : Val -> M Val)
| CallMapOr (defaultValue : Val) (f : Val -> M Val)
| CallMapOrElse (defaultValue f : Val -> M Val)
| CallMapErr (op : Val -> M Val)
| CallInspect (f : Val -> M Val)
| CallInspectErr (f : Val -> M Val)
| CallAnd (res : Val)
| CallAndThen (op : Val -> M Val)
| CallOr (res : Val)
| CallOrElse (op : Val -> M Val)
| CallUnwrap
| CallUnwrapOr (defaultValue : Val)
| CallUnwrapOrElse (defaultValue : M Val)
| CallOrThrow
| CallMatch (ok err : Val -> M Val)
| CallBranch.

Definition invoke (c : Call) (this : Val) : M Val :=
  match c with
  | CallIsOk => Result.prototype.isOk this
  | CallIsOkAnd f => Result.prototype.isOkAnd this f
  | CallIsErr => Result.prototype.isErr this
  | CallIsErrAnd f => Result.prototype.isErrAnd this f
  | CallOk noneSymbol => Result.prototype.ok this noneSymbol
  | CallErr noneSymbol => Result.prototype.err this noneSymbol
  | CallMap op => Result.prototype.map this op
  | CallMapOr d f => Result.prototype.mapOr this d f
  | CallMapOrElse d f => Result.prototype.mapOrElse this d f
  | CallMapErr op => Result.prototype.mapErr this op
  | CallInspect f => Result.prototype.inspect this f
  | CallInspectErr f => Result.prototype.inspectErr this f
  | CallAnd res => Result.prototype.and_ this res
  | CallAndThen op => Result.prototype.andThen this op
  | CallOr res => Result.prototype.or_ this res
  | CallOrElse op => Result.prototype.orElse this op
  | CallUnwrap => Result.prototype.unwrap this
  | CallUnwrapOr d => Result.prototype.unwrapOr this d
  | CallUnwrapOrElse d => Result.prototype.unwrapOrElse this d
  | CallOrThrow => Result.prototype.orThrow this
  | CallMatch ok err => Result.prototype.match_ this ok err
  | CallBranch => Result.prototype.branch this
  end.

(** The caller's callbacks in a call all leave [P] in place. *)
Definition callbacks_preserve (P : World -> Prop) (c : Call) : Prop :=
  match c with
  | CallIsOkAnd f | CallIsErrAnd f | CallMap f | CallMapOr _ f | CallMapErr f
  | CallInspect f | CallInspectErr f | CallAndThen f | CallOrElse f =>
      forall x, preserves P (f x)
  | CallMapOrElse d f | CallMatch d f =>
      (forall x, preserves P (d x)) /\ (forall x, preserves P (f x))
  | CallUnwrapOrElse d => preserves P d
  | _ => True
  end.

(** ** Objects, worlds and handlers used in the statements *)

(** The object literals of [Result.ok] and [Result.err], and the instance
    of [Result] around one of them. *)
Definition inner_ok (v : Val) : Obj :=
  Object ClsObject [("success", VBool true); ("value", v)].

Definition inner_err (e : Val) : Obj :=
  Object ClsObject [("success", VBool false); ("value", e)].

Definition instance (inner : loc) : Obj :=
  Object ClsResult [("innerResult", VObj inner)].

(** The world [w] with the objects [objs] created on top of its store. *)
Definition extend (w : World) (objs : list Obj) : World :=
  mkWorld (w_heap w ++ objs) (w_symbols w) (w_trace w).

(** [r] still is the variant [x]. *)
Definition intact (r : Val) (x : Variant) : World -> Prop :=
  fun w => variant_of w r = Some x.

(** [Result.ok(3)] and [Result.err("boom")] created in the empty store: the
    instance is at location 1, its [innerResult] at location 0. *)
Definition sample_ok : World := snd (Result.ok (VNum 3) initial_world).

Definition sample_err : World := snd (Result.err (VStr "boom") initial_world).

(** A handler that must not be invoked: it throws. *)
Definition forbidden : Val -> M Val :=
  fun _ => throw (VStr "this handler must not be invoked").

Definition identity : Val -> M Val := fun v => ret v.

(** The message of the [Panic] that [unwrap()] throws. *)
Definition panic_message : string := "called `Result.unwrap()` on an `Err`".

(** A callback that assigns [{ success: false, value: "changed" }] to the
    object at location 0. *)
Definition mutate_receiver : Val -> M Val :=
  fun _ => store 0 (inner_err (VStr "changed")) ;;; ret VUndefined.

(** [Result.ok] or [Result.err], by the variant. *)
Definition construct (x : Variant) : M Val :=
  match x with Ok v => Result.ok v | Err e => Result.err e end.

Definition inner_of (x : Variant) : Obj :=
  match x with Ok v => inner_ok v | Err e => inner_err e end.

(** The rest of the body of [awaited()] after its [await]. *)
Definition after_await (x : Variant) : Val -> Async :=
  match x with
  | Ok _ => fun y => Return_ (Result.ok y)
  | Err _ => fun y => Return_ (Result.err y)
  end.

(** Sample worlds with a payload at location 0, its [Result] at location 2:
    promises in the three states, and a thenable that is no promise. *)
Definition world_with (payload_object : Obj) (x : Variant) : World :=
  snd ((p <- alloc payload_object ;; construct (with_payload x p)) initial_world).

Definition world_fulfilled : World :=
  world_with (PromiseObj (Fulfilled (VNum 5))) (Ok VUndefined).

Definition world_rejected : World :=
  world_with (PromiseObj (Rejected (VStr "late"))) (Err VUndefined).

Definition world_pending : World :=
  world_with (PromiseObj Pending) (Err VUndefined).

Definition world_thenable : World :=
  world_with (Object ClsObject [("then", VFun 0)]) (Ok VUndefined).

(** The message of a [TurnstileError] for the codes [names]. *)
Definition turnstile_message (names : list string) : string :=
  "Cloudflare Turnstile returned error codes: '"
  +:+ String.concat "', '" names +:+ "'".

(** A sample host: [fetch] resolves with a response handle, [json] with a
    body that reports one error code, or with a successful body. *)
Definition sample_fetch : Request -> M Val :=
  fun _ => alloc (PromiseObj (Fulfilled (VStr "response"))).

Definition sample_json_failure : Val -> M Val :=
  fun _ =>
    codes <- alloc (ArrayObj (map VStr ["invalid-input-response"])) ;;
    body <- alloc (Object ClsObject
                     [("success", VBool false); ("error-codes", codes)]) ;;
    alloc (PromiseObj (Fulfilled body)).

Definition sample_json_success : Val -> M Val :=
  fun _ =>
    codes <- alloc (ArrayObj []) ;;
    body <- alloc (Object ClsObject
                     [("success", VBool true); ("error-codes", codes);
                      ("hostname", VStr "example.com")]) ;;
    alloc (PromiseObj (Fulfilled body)).

Definition sample_ToString : Val -> M string := fun _ => ret "".

(** A [CfTurnstile] at location 0. *)
Definition world_turnstile : World :=
  snd (CfTurnstile.withAlwaysPassesToken initial_world).

(** ** Further notions used in the statements *)

(** The calls that may throw by themselves: the two named extraction
    points. *)
Definition may_throw (c : Call) : bool :=
  match c with
  | CallUnwrap | CallOrThrow => true
  | _ => false
  end.

(** The calls that take no callback and create no object. *)
Definition reads_only (c : Call) : bool :=
  match c with
  | CallIsOk | CallIsErr | CallOk _ | CallErr _ | CallAnd _ | CallOr _
  | CallUnwrapOr _ => true
  | _ => false
  end.

(** A callback that returns, whatever its argument and the world. *)
Definition returns {A B} (f : A -> M B) : Prop :=
  forall x w, exists y w', f x w = (Returned y, w').

(** The caller's callbacks in a call all return. *)
Definition callbacks_return (c : Call) : Prop :=
  match c with
  | CallIsOkAnd f | CallIsErrAnd f | CallMap f | CallMapOr _ f | CallMapErr f
  | CallInspect f | CallInspectErr f | CallAndThen f | CallOrElse f =>
      returns f
  | CallMapOrElse d f | CallMatch d f => returns d /\ returns f
  | CallUnwrapOrElse d => returns (fun _ : unit => d)
  | _ => True
  end.

(** A callback that computes a value from its argument and does nothing
    else. *)
Definition pure (F : Val -> Val) : Val -> M Val := fun v => ret (F v).

(** The variant with [F] applied under [Ok], as [map] does. *)
Definition map_variant (F : Val -> Val) (x : Variant) : Variant :=
  match x with Ok v => Ok (F v) | Err e => Err e end.

(** [Result.ok(null)] in the empty store. *)
Definition sample_ok_null : World := snd (Result.ok VNull initial_world).

(** A host whose [fetch] promise is rejected, and one whose [json] body
    has a false [success] and no ["error-codes"]. *)
Definition sample_fetch_rejected : Request -> M Val :=
  fun _ => alloc (PromiseObj (Rejected (VStr "network down"))).

(** A [fetch] that serves POST requests as [sample_fetch] does and throws
    on every other request. *)
Definition sample_fetch_post_only : Request -> M Val :=
  fun request =>
    if String.eqb (req_method request) "POST" then sample_fetch request
    else throw (VStr "unexpected request").

Definition sample_json_no_codes : Val -> M Val :=
  fun _ =>
    body <- alloc (Object ClsObject [("success", VBool false)]) ;;
    alloc (PromiseObj (Fulfilled body)).

(** ** Pending calls and their resumption *)

(** What the environment does to a pending call: each entry is a later
    world together with the settlement delivered to the body that is
    suspended at that moment. *)
Definition Schedule : Type := list (World * Outcome Val).

(** The state of a call after the resumptions of a schedule: a settled call
    stays as it is, a suspended one is resumed with the next entry. *)
Fixpoint drive (st : AsyncState * World) (schedule : Schedule)
  : AsyncState * World :=
  match schedule with
  | [] => st
  | (w2, settlement) :: rest =>
      match st with
      | (Suspended _ k, _) => drive (resume k settlement w2) rest
      | _ => st
      end
  end.

(** Where and with what an [await] of [p], reached in [w], is delivered:
    at once when [p] has settled in [w], by the next entry of the schedule
    otherwise; with the rest of the schedule. *)
Definition delivered (w : World) (p : Val) (schedule : Schedule)
  : option (World * Outcome Val * Schedule) :=
  match await_settlement w p with
  | Some settlement => Some (w, settlement, schedule)
  | None =>
      match schedule with
      | (w2, settlement) :: rest => Some (w2, settlement, rest)
      | [] => None
      end
  end.

(** The state of [await callee(...)] followed by [k], from the state of
    the callee. *)
Definition then_state (k : Val -> Async) (st : AsyncState * World)
  : AsyncState * World :=
  match st with
  | (Settled (Returned x), w') => run (k x) w'
  | (Settled (Thrown e), w') => (Settled (Thrown e), w')
  | (Suspended p k', w') => (Suspended p (fun y => await_call (k' y) k), w')
  end.

(** A rest of a body that contains no [await] that suspends. *)
Definition settles_at_once (k : Val -> Async) : Prop :=
  forall x w, exists o w', run (k x) w = (Settled o, w').

(** The rest of the body of [validate] after [await this.req(request)]. *)
Definition validate_after_response (ToString : Val -> M string)
  : Val -> Async :=
  fun response =>
    Do (get_prop response "success") (fun success =>
      if truthy success then
        Return_ (Result.ok response)
      else
        Do (get_prop response "error-codes") (fun codes =>
        Return_ (e <- TurnstileError.new ToString codes ;;
                 Result.err e))).

(** A host whose [fetch] promise is still pending when [fetch] returns,
    the world in which [validate] is then pending, and later worlds in
    which the host has fulfilled or rejected that promise (location 1). *)
Definition sample_fetch_pending : Request -> M Val :=
  fun _ => alloc (PromiseObj Pending).

Definition world_waiting : World :=
  snd (sample_fetch_pending (mkRequest "" "" []) world_turnstile).

Definition world_response_arrived : World :=
  snd (store 1 (PromiseObj (Fulfilled (VStr "response"))) world_waiting).

Definition world_request_failed : World :=
  snd (store 1 (PromiseObj (Rejected (VStr "network down"))) world_waiting).

(** ** Lemmas on the store *)

Lemma read_object_grow w v extra syms tr o :
  read_object w v = Some o ->
  read_object (mkWorld (w_heap w ++ extra) syms tr) v = Some o.
Proof.
  unfold read_object. destruct v as [| | | | | | |l]; try discriminate.
  simpl. destruct (w_heap w !! l) as [obj|] eqn:E; [|discriminate].
  intros H. rewrite (lookup_app_l_Some _ _ _ _ E). exact H.
Qed.

Lemma variant_of_grow w r x extra syms tr :
  variant_of w r = Some x ->
  variant_of (mkWorld (w_heap w ++ extra) syms tr) r = Some x.
Proof.
  unfold variant_of.
  destruct (read_object w r) as [[c props]|] eqn:E1; [|discriminate].
  rewrite (@read_object_grow w r extra syms tr _ E1).
  destruct c; try discriminate.
  destruct (lookup_prop "innerResult" props) as [inner|]; [|discriminate].
  destruct (read_object w inner) as [[c' iprops]|] eqn:E2; [|discriminate].
  rewrite (@read_object_grow w inner extra syms tr _ E2). trivial.
Qed.

Lemma variant_of_heap w w' r :
  w_heap w' = w_heap w -> variant_of w' r = variant_of w r.
Proof.
  intros H. unfold variant_of, read_object. rewrite H. reflexivity.
Qed.

(** What [variant_of] says about the store, spelled out. *)
Lemma variant_of_inv w r x :
  variant_of w r = Some x ->
  exists l props i c iprops,
    r = VObj l /\
    w_heap w !! l = Some (Object ClsResult props) /\
    lookup_prop "innerResult" props = Some (VObj i) /\
    w_heap w !! i = Some (Object c iprops) /\
    lookup_prop "success" iprops = Some (VBool (is_ok x)) /\
    lookup_prop "value" iprops = Some (payload x).
Proof.
  unfold variant_of, read_object. intros H.
  destruct r as [| | | | | | |l]; try discriminate.
  destruct (w_heap w !! l) as [[c props| |]|] eqn:El; try discriminate.
  destruct c; try discriminate.
  destruct (lookup_prop "innerResult" props) as [inner|] eqn:Ei; [|discriminate].
  destruct inner as [| | | | | | |i]; try discriminate.
  destruct (w_heap w !! i) as [[c' iprops| |]|] eqn:Eh; try discriminate.
  destruct (lookup_prop "success" iprops) as [[| |[|]| | | | |]|] eqn:Es;
    try discriminate;
    destruct (lookup_prop "value" iprops) as [v|] eqn:Ev; try discriminate;
    injection H as <-; exists l, props, i, c', iprops; simpl; auto 10.
Qed.

Lemma success_of_variant w r x :
  variant_of w r = Some x ->
  Result.success r w = (Returned (VBool (is_ok x)), w).
Proof.
  intros H. destruct (@variant_of_inv _ _ _ H)
    as (l & props & i & c & iprops & -> & Hl & Hi & Hh & Hs & Hv).
  unfold Result.success, bind, get_prop.
  rewrite Hl, Hi. simpl. rewrite Hh, Hs. reflexivity.
Qed.

Lemma value_of_variant w r x :
  variant_of w r = Some x ->
  Result.value r w = (Returned (payload x), w).
Proof.
  intros H. destruct (@variant_of_inv _ _ _ H)
    as (l & props & i & c & iprops & -> & Hl & Hi & Hh & Hs & Hv).
  unfold Result.value, bind, get_prop.
  rewrite Hl, Hi. simpl. rewrite Hh, Hv. reflexivity.
Qed.

(** ** The constructors *)

Lemma ok_run v w :
  Result.ok v w =
  (Returned (VObj (S (length (w_heap w)))),
   extend w [inner_ok v; instance (length (w_heap w))]).
Proof.
  unfold Result.ok, Result.new, bind, alloc, extend; simpl.
  rewrite length_app, <- app_assoc; simpl.
  replace (length (w_heap w) + 1) with (S (length (w_heap w))) by lia.
  reflexivity.
Qed.

Lemma err_run e w :
  Result.err e w =
  (Returned (VObj (S (length (w_heap w)))),
   extend w [inner_err e; instance (length (w_heap w))]).
Proof.
  unfold Result.err, Result.new, bind, alloc, extend; simpl.
  rewrite length_app, <- app_assoc; simpl.
  replace (length (w_heap w) + 1) with (S (length (w_heap w))) by lia.
  reflexivity.
Qed.

Lemma lookup_fresh_0 (h : list Obj) a rest : (h ++ a :: rest) !! length h = Some a.
Proof. apply list_lookup_middle. reflexivity. Qed.

Lemma lookup_fresh_1 (h : list Obj) a b rest :
  (h ++ a :: b :: rest) !! S (length h) = Some b.
Proof.
  replace (h ++ a :: b :: rest) with ((h ++ [a]) ++ b :: rest)
    by (rewrite <- app_assoc; reflexivity).
  apply list_lookup_middle. rewrite length_app. simpl. lia.
Qed.

Lemma ok_variant v w :
  variant_of (extend w [inner_ok v; instance (length (w_heap w))])
             (VObj (S (length (w_heap w)))) = Some (Ok v).
Proof.
  unfold variant_of, read_object, extend; simpl.
  rewrite lookup_fresh_1; simpl. rewrite lookup_fresh_0. reflexivity.
Qed.

Lemma err_variant e w :
  variant_of (extend w [inner_err e; instance (length (w_heap w))])
             (VObj (S (length (w_heap w)))) = Some (Err e).
Proof.
  unfold variant_of, read_object, extend; simpl.
  rewrite lookup_fresh_1; simpl. rewrite lookup_fresh_0. reflexivity.
Qed.

(** ** The dispatch *)

Lemma match_variant w r x (ok err : Val -> M Val) :
  variant_of w r = Some x ->
  Result.prototype.match_ r ok err w =
  match x with Ok v => ok v w | Err e => err e w end.
Proof.
  intros H. unfold Result.prototype.match_, bind.
  rewrite (success_of_variant _ _ _ H).
  destruct x; simpl; rewrite (value_of_variant _ _ _ H); reflexivity.
Qed.

(** ** What the methods leave in place *)

Create HintDb preserves.

Section Preservation.
Variable r : Val.
Variable x : Variant.

Lemma preserves_ret {A} (P : World -> Prop) (a : A) : preserves P (ret a).
Proof. intros w H. exact H. Qed.

Lemma preserves_throw {A} (P : World -> Prop) e : preserves P (@throw A e).
Proof. intros w H. exact H. Qed.

Lemma preserves_bind {A B} (P : World -> Prop) (m : M A) (k : A -> M B) :
  preserves P m -> (forall a, preserves P (k a)) -> preserves P (bind m k).
Proof.
  intros Hm Hk w H. unfold bind. specialize (Hm w H).
  destruct (m w) as [[a|e] w']; simpl in *; [apply Hk|]; assumption.
Qed.

Lemma preserves_alloc o : preserves (intact r x) (alloc o).
Proof. intros w H. apply variant_of_grow. exact H. Qed.

Lemma preserves_throw_TypeError {A} msg :
  preserves (intact r x) (@throw_TypeError A msg).
Proof.
  unfold throw_TypeError. apply preserves_bind.
  - apply preserves_alloc.
  - intros a. apply preserves_throw.
Qed.

Lemma preserves_get_prop o key : preserves (intact r x) (get_prop o key).
Proof.
  intros w H. unfold get_prop.
  destruct o as [| | | | | | |l]; simpl; try exact H;
    try (apply (@preserves_throw_TypeError Val); exact H).
  destruct (w_heap w !! l) as [[c props| |]|]; simpl; try exact H.
  apply (@preserves_throw_TypeError Val); exact H.
Qed.

Lemma preserves_instanceof (P : World -> Prop) v :
  preserves P (instanceof_Promise v).
Proof. intros w H. exact H. Qed.

Lemma preserves_emit ev : preserves (intact r x) (emit ev).
Proof.
  intros w H. unfold intact. simpl.
  rewrite (variant_of_heap w); [exact H | reflexivity].
Qed.

Lemma preserves_Symbol d : preserves (intact r x) (Symbol d).
Proof.
  intros w H. unfold intact. simpl.
  rewrite (variant_of_heap w); [exact H | reflexivity].
Qed.

Hint Resolve preserves_ret preserves_throw preserves_bind preserves_alloc
  preserves_get_prop preserves_instanceof : preserves.

Lemma preserves_success this : preserves (intact r x) (Result.success this).
Proof. unfold Result.success. auto with preserves. Qed.

Lemma preserves_value this : preserves (intact r x) (Result.value this).
Proof. unfold Result.value. auto with preserves. Qed.

Lemma preserves_ok v : preserves (intact r x) (Result.ok v).
Proof. unfold Result.ok, Result.new. auto with preserves. Qed.

Lemma preserves_err v : preserves (intact r x) (Result.err v).
Proof. unfold Result.err, Result.new. auto with preserves. Qed.

Lemma preserves_Panic msg cause : preserves (intact r x) (Panic.new msg cause).
Proof. unfold Panic.new. auto with preserves. Qed.

Hint Resolve preserves_success preserves_value preserves_ok preserves_err
  preserves_Panic : preserves.

Lemma preserves_match this (ok err : Val -> M Val) :
  (forall v, preserves (intact r x) (ok v)) ->
  (forall e, preserves (intact r x) (err e)) ->
  preserves (intact r x) (Result.prototype.match_ this ok err).
Proof.
  intros Hok Herr. unfold Result.prototype.match_.
  apply preserves_bind; [auto with preserves|].
  intros s. destruct (truthy s); auto with preserves.
Qed.

(** The two shapes of method bodies: a [match_] with this class's arms,
    or a test of [success] followed by returns. *)
Ltac by_match := apply preserves_match; intros; auto 6 with preserves.
Ltac by_test :=
  apply preserves_bind; [auto with preserves|];
  let s := fresh "s" in
  intros s; destruct (truthy s); simpl; auto 8 with preserves.

Lemma preserves_invoke c this :
  callbacks_preserve (intact r x) c ->
  preserves (intact r x) (invoke c this).
Proof.
  destruct c; simpl; intros Hc.
  - apply preserves_success.
  - unfold Result.prototype.isOkAnd. by_match.
  - unfold Result.prototype.isErr. auto with preserves.
  - unfold Result.prototype.isErrAnd. by_match.
  - unfold Result.prototype.ok. by_test.
    destruct (truthy noneSymbol); auto with preserves.
  - unfold Result.prototype.err. by_test.
    destruct (truthy noneSymbol); auto with preserves.
  - unfold Result.prototype.map. by_match.
  - unfold Result.prototype.mapOr. by_match.
  - destruct Hc. unfold Result.prototype.mapOrElse. by_match.
  - unfold Result.prototype.mapErr. by_match.
  - unfold Result.prototype.inspect. by_test.
  - unfold Result.prototype.inspectErr. by_test.
  - unfold Result.prototype.and_. by_match.
  - unfold Result.prototype.andThen. by_match.
  - unfold Result.prototype.or_. by_match.
  - unfold Result.prototype.orElse. by_match.
  - unfold Result.prototype.unwrap. by_match.
  - unfold Result.prototype.unwrapOr. by_match.
  - unfold Result.prototype.unwrapOrElse. by_match.
  - unfold Result.prototype.orThrow. by_match.
  - destruct Hc. by_match.
  - unfold Result.prototype.branch. by_match.
Qed.

Lemma preserves_awaited this :
  preserves_async (intact r x) (ResultAsync.awaited this).
Proof.
  unfold ResultAsync.awaited. simpl. split; [auto with preserves|].
  intros s. destruct (truthy s); simpl;
    (split; [auto with preserves|]); intros v;
    (split; [auto with preserves|]); intros [|]; simpl;
    (split; [auto with preserves|]); auto with preserves.
Qed.

(** A body that leaves [P] in place leaves it in place when it runs. *)
Lemma run_preserves (P : World -> Prop) a :
  preserves_async P a -> forall w, P w -> P (snd (run a w)).
Proof.
  induction a as [m|X m k IH|p k IH]; simpl; intros Ha w Hw.
  - specialize (Ha w Hw). destruct (m w) as [o w']. exact Ha.
  - destruct Ha as [Hm Hk]. specialize (Hm w Hw).
    destruct (m w) as [[y|e] w']; simpl in *; [apply IH; auto | exact Hm].
  - destruct (await_settlement w p) as [[y|reason]|]; simpl; auto.
Qed.

End Preservation.

(** ** The sample handlers *)

Lemma silent_identity : silent identity.
Proof. intros x w. reflexivity. Qed.

Lemma silent_forbidden : silent forbidden.
Proof. intros x w. reflexivity. Qed.

(** * The properties *)

(** ** [match] *)

(** C1. For a [Result] [r] and handlers [f], [g], [r.match(f, g)] is the
    call of [f] on the success payload when [r] is [Ok], the call of [g] on
    the error payload when [r] is [Err]: same result, same effects, so the
    other handler has no part in it.  With both handlers instrumented, the
    call announces one invocation, that of the active variant's handler
    with the payload. *)
Theorem match_invokes_exactly_one_handler
    (w : World) (r : Val) (x : Variant) (f g : Val -> M Val) :
  variant_of w r = Some x ->
  Result.prototype.match_ r f g w =
    match x with Ok v => f v w | Err e => g e w end
  /\ (silent f -> silent g ->
      w_trace (snd (Result.prototype.match_ r (spy "onOk" f) (spy "onErr" g) w)) =
      w_trace w ++
        [match x with Ok v => Invoked "onOk" v | Err e => Invoked "onErr" e end]).
Proof.
  intros H. split.
  - apply match_variant. exact H.
  - intros Hf Hg. rewrite (match_variant _ _ _ _ _ H).
    destruct x as [v|e]; unfold spy, bind, emit; simpl.
    + rewrite Hf. reflexivity.
    + rewrite Hg. reflexivity.
Qed.

Lemma match_invokes_exactly_one_handler_witness :
  variant_of sample_ok (VObj 1) = Some (Ok (VNum 3))
  /\ Result.prototype.match_ (VObj 1) identity forbidden sample_ok =
       (Returned (VNum 3), sample_ok)
  /\ w_trace (snd (Result.prototype.match_ (VObj 1)
                     (spy "onOk" identity) (spy "onErr" forbidden) sample_ok)) =
       [Invoked "onOk" (VNum 3)].
Proof.
  split; [reflexivity|].
  destruct (match_invokes_exactly_one_handler
              sample_ok (VObj 1) (Ok (VNum 3)) identity forbidden eq_refl)
    as [Hres Htrace].
  split; [exact Hres|].
  exact (Htrace silent_identity silent_forbidden).
Defined.

(** ** The combinators *)

(** [ok(v).map(f)], when [f(v)] returns [y], is a new [Result] that is
    [Ok] of [y]: structurally what [ok(f(v))] is. *)
Lemma map_ok_variant (v y : Val) (f : Val -> M Val) (w w2 : World) :
  f v (snd (Result.ok v w)) = (Returned y, w2) ->
  exists r' w3,
    (r <- Result.ok v ;; Result.prototype.map r f) w = (Returned r', w3)
    /\ variant_of w3 r' = Some (Ok y).
Proof.
  intros Hf. unfold bind at 1. rewrite ok_run in *. simpl in Hf.
  unfold Result.prototype.map.
  rewrite (match_variant _ _ _ _ _ (ok_variant v w)).
  unfold bind. rewrite Hf, ok_run.
  eexists _, _. split; [reflexivity|]. apply ok_variant.
Qed.

(** C2. [ok(v).map(f)] is [ok(f(v))]: the call of [f] on [v], then
    [Result.ok] of what it returned; [ok(v).andThen(f)] is [f(v)];
    [ok(v).and(other)] is [other]; on [err(e)] the three return the
    receiver itself, so the whole expression is [err(e)]. *)
Theorem combinator_laws (v e other : Val) (f : Val -> M Val) (w : World) :
  (r <- Result.ok v ;; Result.prototype.map r f) w =
    (Result.ok v ;;; (y <- f v ;; Result.ok y)) w
  /\ (r <- Result.err e ;; Result.prototype.map r f) w = Result.err e w
  /\ (r <- Result.ok v ;; Result.prototype.andThen r f) w =
       (Result.ok v ;;; f v) w
  /\ (r <- Result.err e ;; Result.prototype.andThen r f) w = Result.err e w
  /\ (r <- Result.ok v ;; Result.prototype.and_ r other) w =
       (Result.ok v ;;; ret other) w
  /\ (r <- Result.err e ;; Result.prototype.and_ r other) w = Result.err e w.
Proof.
  unfold Result.prototype.map, Result.prototype.andThen, Result.prototype.and_.
  unfold bind. rewrite !ok_run, !err_run.
  rewrite !(match_variant _ _ _ _ _ (ok_variant v w)).
  rewrite !(match_variant _ _ _ _ _ (err_variant e w)).
  repeat split; reflexivity.
Qed.

(** ** Extraction *)

(** C3. [unwrap()] on an [Ok] returns the payload.  On an [Err] it throws
    a newly created instance of [Panic] (an object that did not exist
    before the call, so it is not the payload) whose [cause] is the error
    payload. *)
Theorem unwrap_returns_or_panics (w : World) (r : Val) (x : Variant) :
  variant_of w r = Some x ->
  match x with
  | Ok v => Result.prototype.unwrap r w = (Returned v, w)
  | Err e =>
      let thrown := VObj (length (w_heap w)) in
      Result.prototype.unwrap r w =
        (Thrown thrown,
         extend w [Object ClsPanic
                     [("message", VStr panic_message); ("cause", e)]])
      /\ read_object w thrown = None
      /\ read_object (snd (Result.prototype.unwrap r w)) thrown =
           Some (ClsPanic, [("message", VStr panic_message); ("cause", e)])
  end.
Proof.
  intros H. unfold Result.prototype.unwrap.
  rewrite (match_variant _ _ _ _ _ H). destruct x as [v|e]; [reflexivity|].
  cbv zeta. split; [reflexivity|]. split.
  - unfold read_object. rewrite lookup_ge_None_2; [reflexivity | lia].
  - unfold bind, Panic.new, alloc, throw, read_object; simpl.
    rewrite lookup_fresh_0. reflexivity.
Qed.

Lemma unwrap_returns_or_panics_witness :
  Result.prototype.unwrap (VObj 1) sample_ok = (Returned (VNum 3), sample_ok)
  /\ Result.prototype.unwrap (VObj 1) sample_err =
       (Thrown (VObj 2),
        extend sample_err
          [Object ClsPanic
             [("message", VStr panic_message); ("cause", VStr "boom")]]).
Proof.
  split.
  - exact (unwrap_returns_or_panics sample_ok (VObj 1) (Ok (VNum 3)) eq_refl).
  - exact (proj1 (unwrap_returns_or_panics
                    sample_err (VObj 1) (Err (VStr "boom")) eq_refl)).
Defined.

(** Caught by the caller, the [Panic] gives the error payload back as its
    [cause]. *)
Example panic_carries_cause :
  fst (try_catch (Result.prototype.unwrap (VObj 1))
                 (fun thrown => get_prop thrown "cause") sample_err) =
  Returned (VStr "boom").
Proof. reflexivity. Qed.

(** C7. [orThrow()] on an [Ok] returns the payload; on an [Err] it throws
    the error payload itself: no object is created around it and the store
    is as it was. *)
Theorem orThrow_returns_or_rethrows (w : World) (r : Val) (x : Variant) :
  variant_of w r = Some x ->
  Result.prototype.orThrow r w =
    match x with
    | Ok v => (Returned v, w)
    | Err e => (Thrown e, w)
    end.
Proof.
  intros H. unfold Result.prototype.orThrow.
  rewrite (match_variant _ _ _ _ _ H). destruct x; reflexivity.
Qed.

Lemma orThrow_returns_or_rethrows_witness :
  Result.prototype.orThrow (VObj 1) sample_ok = (Returned (VNum 3), sample_ok)
  /\ Result.prototype.orThrow (VObj 1) sample_err =
       (Thrown (VStr "boom"), sample_err).
Proof.
  split.
  - exact (orThrow_returns_or_rethrows sample_ok (VObj 1) (Ok (VNum 3)) eq_refl).
  - exact (orThrow_returns_or_rethrows
             sample_err (VObj 1) (Err (VStr "boom")) eq_refl).
Defined.

(** ** The early-return protocol *)

(** C4. [branch()] on an [Ok] returns a new [{ isBreak: false, value }]
    around the payload; on an [Err] a new [{ isBreak: true, value }] whose
    value is the receiver itself.  It returns in both cases: it throws
    nothing and the store only gains that object. *)
Theorem branch_returns_control_flow (w : World) (r : Val) (x : Variant) :
  variant_of w r = Some x ->
  Result.prototype.branch r w =
    (Returned (VObj (length (w_heap w))),
     extend w [match x with
               | Ok v => ControlFlow.literal false v
               | Err _ => ControlFlow.literal true r
               end])
  /\ variant_of (snd (Result.prototype.branch r w)) r = Some x.
Proof.
  intros H. unfold Result.prototype.branch.
  rewrite (match_variant _ _ _ _ _ H).
  destruct x; (split; [reflexivity|]); simpl;
    apply variant_of_grow; exact H.
Qed.

Lemma branch_returns_control_flow_witness :
  Result.prototype.branch (VObj 1) sample_ok =
    (Returned (VObj 2),
     extend sample_ok
       [Object ClsObject [("isBreak", VBool false); ("value", VNum 3)]])
  /\ Result.prototype.branch (VObj 1) sample_err =
    (Returned (VObj 2),
     extend sample_err
       [Object ClsObject [("isBreak", VBool true); ("value", VObj 1)]]).
Proof.
  split.
  - exact (proj1 (branch_returns_control_flow
                    sample_ok (VObj 1) (Ok (VNum 3)) eq_refl)).
  - exact (proj1 (branch_returns_control_flow
                    sample_err (VObj 1) (Err (VStr "boom")) eq_refl)).
Defined.

(** ** Projections and the sentinel *)

Lemma strict_equals_eq (a b : Val) : strict_equals a b = true <-> a = b.
Proof.
  destruct a, b; simpl; split; intros H;
    try discriminate; try reflexivity;
    try (injection H as ->);
    try (apply Bool.eqb_prop in H; subst; reflexivity);
    try (apply Z.eqb_eq in H; subst; reflexivity);
    try (apply String.eqb_eq in H; subst; reflexivity);
    try (apply Nat.eqb_eq in H; subst; reflexivity).
  - apply Bool.eqb_reflx.
  - apply Z.eqb_refl.
  - apply String.eqb_refl.
  - apply Nat.eqb_refl.
  - apply Nat.eqb_refl.
  - apply Nat.eqb_refl.
Qed.

(** C6. [ok()] returns the payload of an [Ok] and [err()] that of an [Err];
    on the other variant they return [null] when the argument is omitted or
    false and the sentinel [Result.none] when it is true.  The sentinel is
    the symbol made when the module is loaded: it is not [null], [===]
    tells it from every value that is not the sentinel itself, and no later
    [Symbol()] call returns it. *)
Theorem projections_and_sentinel (w : World) (r : Val) (x : Variant) :
  variant_of w r = Some x ->
  match x with
  | Ok v =>
      (forall noneSymbol,
          Result.prototype.ok r noneSymbol w = (Returned v, w))
      /\ Result.prototype.err r VUndefined w = (Returned VNull, w)
      /\ Result.prototype.err r (VBool false) w = (Returned VNull, w)
      /\ Result.prototype.err r (VBool true) w = (Returned Result.none, w)
  | Err e =>
      (forall noneSymbol,
          Result.prototype.err r noneSymbol w = (Returned e, w))
      /\ Result.prototype.ok r VUndefined w = (Returned VNull, w)
      /\ Result.prototype.ok r (VBool false) w = (Returned VNull, w)
      /\ Result.prototype.ok r (VBool true) w = (Returned Result.none, w)
  end
  /\ Result.module_load initial_world =
       (Returned Result.none, mkWorld [] ["none"] [])
  /\ strict_equals Result.none VNull = false
  /\ (forall v, v <> Result.none ->
        strict_equals Result.none v = false /\ strict_equals v Result.none = false)
  /\ (forall description w',
        w_symbols w' <> [] ->
        fst (Symbol description w') <> Returned Result.none).
Proof.
  intros H. split; [|split; [reflexivity|split; [reflexivity|split]]].
  - unfold Result.prototype.ok, Result.prototype.err, bind.
    rewrite (success_of_variant _ _ _ H).
    destruct x as [v|e]; simpl; rewrite ?(value_of_variant _ _ _ H);
      repeat split; intros; reflexivity.
  - intros v Hv. split.
    + destruct (strict_equals Result.none v) eqn:E; [|reflexivity].
      apply strict_equals_eq in E. congruence.
    + destruct (strict_equals v Result.none) eqn:E; [|reflexivity].
      apply strict_equals_eq in E. congruence.
  - intros d w' Hs. unfold Symbol, Result.none. simpl.
    destruct (w_symbols w'); [congruence|]. simpl. congruence.
Qed.

Lemma projections_and_sentinel_witness :
  Result.prototype.ok (VObj 1) VUndefined sample_ok = (Returned (VNum 3), sample_ok)
  /\ Result.prototype.err (VObj 1) VUndefined sample_ok = (Returned VNull, sample_ok)
  /\ Result.prototype.err (VObj 1) (VBool true) sample_ok =
       (Returned Result.none, sample_ok)
  /\ Result.prototype.err (VObj 1) VUndefined sample_err =
       (Returned (VStr "boom"), sample_err)
  /\ Result.prototype.ok (VObj 1) VUndefined sample_err = (Returned VNull, sample_err)
  /\ Result.prototype.ok (VObj 1) (VBool true) sample_err =
       (Returned Result.none, sample_err)
  /\ strict_equals Result.none (VStr "none") = false
  /\ fst (Symbol "none" (snd (Result.module_load initial_world))) <>
       Returned Result.none.
Proof.
  destruct (projections_and_sentinel sample_ok (VObj 1) (Ok (VNum 3)) eq_refl)
    as [(Hok & Hnull & _ & Hnone) _].
  destruct (projections_and_sentinel sample_err (VObj 1) (Err (VStr "boom")) eq_refl)
    as [(Herr & Hnull' & _ & Hnone') (_ & _ & Hdistinct & Hfresh)].
  split; [apply Hok|]. split; [exact Hnull|]. split; [exact Hnone|].
  split; [apply Herr|]. split; [exact Hnull'|]. split; [exact Hnone'|].
  split.
  - apply (Hdistinct (VStr "none")). discriminate.
  - apply (Hfresh "none" (snd (Result.module_load initial_world))). discriminate.
Defined.

(** ** Immutability of the receiver *)

Lemma suspended_preserves (P : World -> Prop) (a : Async) :
  preserves_async P a ->
  forall w p k w1, run a w = (Suspended p k, w1) ->
  forall y, preserves_async P (k y).
Proof.
  induction a as [m|X m k' IH|p' k' IH]; simpl; intros Ha w p k w1 Hrun.
  - destruct (m w); discriminate.
  - destruct Ha as [_ Hk]. destruct (m w) as [[y|e] w'].
    + eapply IH; eauto.
    + discriminate.
  - destruct (await_settlement w p') as [[y|reason]|].
    + eapply IH; eauto.
    + discriminate.
    + injection Hrun as <- <- <-. exact Ha.
Qed.

(** C8. A [Result] [r] that is the variant [x] still is the variant [x],
    with the same payload, after any call of an instance method on it whose
    callbacks do not themselves change [r]; after the construction of
    another [Result]; and after [awaited()], both when its promise is
    returned and when its body is resumed later.  The methods and the
    constructors only create objects: none of them assigns to an existing
    one. *)
Theorem operations_leave_receiver_unchanged (w : World) (r : Val) (x : Variant) :
  variant_of w r = Some x ->
  (forall c, callbacks_preserve (intact r x) c ->
             variant_of (snd (invoke c r w)) r = Some x)
  /\ (forall v, variant_of (snd (Result.ok v w)) r = Some x
                /\ variant_of (snd (Result.err v w)) r = Some x)
  /\ variant_of (snd (run (ResultAsync.awaited r) w)) r = Some x
  /\ (forall p k w1,
        run (ResultAsync.awaited r) w = (Suspended p k, w1) ->
        forall settlement w2,
          variant_of w2 r = Some x ->
          variant_of (snd (resume k settlement w2)) r = Some x).
Proof.
  intros H. split; [|split; [|split]].
  - intros c Hc. exact (preserves_invoke r x c r Hc w H).
  - intros v. split; [exact (preserves_ok r x v w H) | exact (preserves_err r x v w H)].
  - exact (run_preserves (intact r x) _ (preserves_awaited r x r) w H).
  - intros p k w1 Hrun [y|reason] w2 H2; simpl; [|exact H2].
    apply (run_preserves (intact r x)); [|exact H2].
    exact (suspended_preserves _ _ (preserves_awaited r x r) _ _ _ _ Hrun y).
Qed.

(** The field [innerResult] is public and its object is an ordinary one:
    a callback of the caller's that assigns to it does change the receiver,
    which is why the callbacks are asked to leave it alone above. *)
Example callback_can_assign :
  variant_of (snd (Result.prototype.inspect (VObj 1) mutate_receiver sample_ok))
             (VObj 1) = Some (Err (VStr "changed")).
Proof. reflexivity. Qed.

Lemma operations_leave_receiver_unchanged_witness :
  variant_of (snd (invoke (CallMap identity) (VObj 1) sample_ok)) (VObj 1) =
    Some (Ok (VNum 3))
  /\ variant_of (snd (invoke CallUnwrap (VObj 1) sample_err)) (VObj 1) =
       Some (Err (VStr "boom"))
  /\ variant_of (snd (run (ResultAsync.awaited (VObj 1)) sample_ok)) (VObj 1) =
       Some (Ok (VNum 3))
  /\ variant_of (snd (resume (after_await (Err (VObj 0))) (Returned (VNum 5))
                         world_pending)) (VObj 2) =
       Some (Err (VObj 0)).
Proof.
  destruct (operations_leave_receiver_unchanged
              sample_ok (VObj 1) (Ok (VNum 3)) eq_refl) as (Hcall & _ & Hawaited & _).
  destruct (operations_leave_receiver_unchanged
              sample_err (VObj 1) (Err (VStr "boom")) eq_refl) as (Hcall' & _).
  destruct (operations_leave_receiver_unchanged
              world_pending (VObj 2) (Err (VObj 0)) eq_refl) as (_ & _ & _ & Hresume).
  split; [|split; [|split]].
  - apply (Hcall (CallMap identity)). intros y w0 Hw0. exact Hw0.
  - apply (Hcall' CallUnwrap). exact I.
  - exact Hawaited.
  - exact (Hresume (VObj 0) (after_await (Err (VObj 0))) world_pending eq_refl
                   (Returned (VNum 5)) world_pending eq_refl).
Defined.

(** ** [awaited()] *)

Lemma construct_run x w :
  construct x w =
  (Returned (VObj (S (length (w_heap w)))),
   extend w [inner_of x; instance (length (w_heap w))]).
Proof. destruct x; simpl; [apply ok_run | apply err_run]. Qed.

Lemma construct_variant x w :
  variant_of (extend w [inner_of x; instance (length (w_heap w))])
             (VObj (S (length (w_heap w)))) = Some x.
Proof. destruct x; simpl; [apply ok_variant | apply err_variant]. Qed.

Lemma after_await_run x y w :
  run (after_await x y) w =
  (Settled (Returned (VObj (S (length (w_heap w))))),
   extend w [inner_of (with_payload x y); instance (length (w_heap w))]).
Proof.
  destruct x; cbn [after_await run with_payload inner_of];
    [rewrite ok_run | rewrite err_run]; reflexivity.
Qed.

Lemma awaited_not_promise w r x :
  variant_of w r = Some x ->
  is_promise w (payload x) = false ->
  run (ResultAsync.awaited r) w =
  (Settled (Returned (VObj (S (length (w_heap w))))),
   extend w [inner_of x; instance (length (w_heap w))]).
Proof.
  intros H Hnp. unfold ResultAsync.awaited. cbn [run].
  rewrite (success_of_variant _ _ _ H).
  destruct x as [v|e]; cbn [is_ok truthy payload inner_of run] in *;
    rewrite (value_of_variant _ _ _ H); unfold instanceof_Promise;
    cbn [payload run]; rewrite Hnp; cbn [run];
    rewrite (value_of_variant _ _ _ H); cbn [payload run].
  - rewrite ok_run. reflexivity.
  - rewrite err_run. reflexivity.
Qed.

Lemma awaited_promise w r x :
  variant_of w r = Some x ->
  is_promise w (payload x) = true ->
  run (ResultAsync.awaited r) w =
  match await_settlement w (payload x) with
  | Some (Returned y) => run (after_await x y) w
  | Some (Thrown reason) => (Settled (Thrown reason), w)
  | None => (Suspended (payload x) (after_await x), w)
  end.
Proof.
  intros H Hp. unfold ResultAsync.awaited. cbn [run].
  rewrite (success_of_variant _ _ _ H).
  destruct x as [v|e]; cbn [is_ok truthy payload after_await run] in *;
    rewrite (value_of_variant _ _ _ H); unfold instanceof_Promise;
    cbn [payload run]; rewrite Hp; cbn [run];
    rewrite (value_of_variant _ _ _ H); cbn [payload run];
    destruct (await_settlement w _) as [[y|reason]|]; reflexivity.
Qed.

Lemma promise_settlement w l st :
  w_heap w !! l = Some (PromiseObj st) ->
  is_promise w (VObj l) = true
  /\ await_settlement w (VObj l) =
       match st with
       | Pending => None
       | Fulfilled y => Some (Returned y)
       | Rejected reason => Some (Thrown reason)
       end.
Proof.
  intros H. unfold is_promise, await_settlement. rewrite H.
  destruct st; split; reflexivity.
Qed.

(** C5. [awaited()] settles with a [Result] of the receiver's variant.  A
    payload that is no promise is carried over as it is.  A payload that is
    a promise fulfilled with [y] gives the variant around [y]; while it is
    pending the call is pending, and resumed with [y] at any later moment
    it gives the variant around [y].  A rejection of the payload, found
    settled or delivered on resumption, rejects the promise of [awaited()]
    with the same reason: no [Err] is made of it. *)
Theorem awaited_keeps_variant (w : World) (r : Val) (x : Variant) :
  variant_of w r = Some x ->
  (is_promise w (payload x) = false ->
   exists r' w',
     run (ResultAsync.awaited r) w = (Settled (Returned r'), w')
     /\ variant_of w' r' = Some x)
  /\ (forall l st,
        payload x = VObj l ->
        w_heap w !! l = Some (PromiseObj st) ->
        match st with
        | Fulfilled y =>
            exists r' w',
              run (ResultAsync.awaited r) w = (Settled (Returned r'), w')
              /\ variant_of w' r' = Some (with_payload x y)
        | Rejected reason =>
            run (ResultAsync.awaited r) w = (Settled (Thrown reason), w)
        | Pending =>
            exists k,
              run (ResultAsync.awaited r) w = (Suspended (VObj l) k, w)
              /\ (forall w2 y, exists r' w',
                     resume k (Returned y) w2 = (Settled (Returned r'), w')
                     /\ variant_of w' r' = Some (with_payload x y))
              /\ (forall w2 reason,
                     resume k (Thrown reason) w2 = (Settled (Thrown reason), w2))
        end).
Proof.
  intros H. split.
  - intros Hnp. rewrite (awaited_not_promise _ _ _ H Hnp).
    eexists _, _. split; [reflexivity|]. apply construct_variant.
  - intros l st Hl Hst. destruct (promise_settlement _ _ _ Hst) as [Hp Hs].
    rewrite <- Hl in Hp, Hs. rewrite (awaited_promise _ _ _ H Hp), Hs.
    destruct st as [|y|reason].
    + exists (after_await x). rewrite Hl. split; [reflexivity|]. split.
      * intros w2 y. simpl. rewrite after_await_run.
        eexists _, _. split; [reflexivity|]. apply construct_variant.
      * intros w2 reason. reflexivity.
    + rewrite after_await_run.
      eexists _, _. split; [reflexivity|]. apply construct_variant.
    + reflexivity.
Qed.

Lemma awaited_keeps_variant_witness :
  (exists r' w',
      run (ResultAsync.awaited (VObj 1)) sample_ok = (Settled (Returned r'), w')
      /\ variant_of w' r' = Some (Ok (VNum 3)))
  /\ (exists r' w',
        run (ResultAsync.awaited (VObj 2)) world_fulfilled =
          (Settled (Returned r'), w')
        /\ variant_of w' r' = Some (Ok (VNum 5)))
  /\ run (ResultAsync.awaited (VObj 2)) world_rejected =
       (Settled (Thrown (VStr "late")), world_rejected)
  /\ (exists k,
        run (ResultAsync.awaited (VObj 2)) world_pending =
          (Suspended (VObj 0) k, world_pending)
        /\ resume k (Thrown (VStr "late")) world_rejected =
             (Settled (Thrown (VStr "late")), world_rejected)).
Proof.
  split; [|split; [|split]].
  - exact (proj1 (awaited_keeps_variant sample_ok (VObj 1) (Ok (VNum 3)) eq_refl)
                 eq_refl).
  - exact (proj2 (awaited_keeps_variant world_fulfilled (VObj 2) (Ok (VObj 0))
                    eq_refl) 0 (Fulfilled (VNum 5)) eq_refl eq_refl).
  - exact (proj2 (awaited_keeps_variant world_rejected (VObj 2) (Err (VObj 0))
                    eq_refl) 0 (Rejected (VStr "late")) eq_refl eq_refl).
  - destruct (proj2 (awaited_keeps_variant world_pending (VObj 2) (Err (VObj 0))
                       eq_refl) 0 Pending eq_refl eq_refl) as (k & Hrun & _ & Hrej).
    exists k. split; [exact Hrun|]. apply Hrej.
Defined.

(** An ordinary object is no instance of [Promise], whatever its
    properties: a [then] does not make it one. *)
Lemma ordinary_object_is_no_promise w v c props :
  read_object w v = Some (c, props) -> is_promise w v = false.
Proof.
  unfold read_object, is_promise. destruct v as [| | | | | | |l]; try discriminate.
  destruct (w_heap w !! l) as [[c' props'| |]|]; try discriminate. reflexivity.
Qed.

(** C10. When the payload of [r] is no instance of the host's [Promise]
    (a thenable, or any other value), [awaited()] does not wait: its
    promise is fulfilled at once with a new [Result] of the same variant
    around the very same payload, and the store, the payload object
    included, is as before apart from the new [Result]. *)
Theorem awaited_passes_non_promise_through (w : World) (r : Val) (x : Variant) :
  variant_of w r = Some x ->
  is_promise w (payload x) = false ->
  let r' := VObj (S (length (w_heap w))) in
  let w' := extend w [inner_of x; instance (length (w_heap w))] in
  run (ResultAsync.awaited r) w = (Settled (Returned r'), w')
  /\ variant_of w' r' = Some x
  /\ (forall o, read_object w (payload x) = Some o ->
                read_object w' (payload x) = Some o).
Proof.
  intros H Hnp. cbv zeta. split; [|split].
  - apply awaited_not_promise; assumption.
  - apply construct_variant.
  - intros o Ho. apply read_object_grow. exact Ho.
Qed.

Lemma awaited_passes_non_promise_through_witness :
  is_promise world_thenable (VObj 0) = false
  /\ run (ResultAsync.awaited (VObj 2)) world_thenable =
       (Settled (Returned (VObj 4)),
        extend world_thenable [inner_ok (VObj 0); instance 3])
  /\ read_object (extend world_thenable [inner_ok (VObj 0); instance 3]) (VObj 0) =
       Some (ClsObject, [("then", VFun 0)]).
Proof.
  split.
  - exact (ordinary_object_is_no_promise world_thenable (VObj 0) _ _ eq_refl).
  - destruct (awaited_passes_non_promise_through
                world_thenable (VObj 2) (Ok (VObj 0)) eq_refl eq_refl)
      as (Hrun & _ & Hsame).
    split; [exact Hrun|]. apply Hsame. reflexivity.
Defined.

(** ** The Turnstile wrapper *)

Lemma run_await_call (a : Async) (k : Val -> Async) (w : World) :
  run (await_call a k) w =
  match run a w with
  | (Settled (Returned x), w') => run (k x) w'
  | (Settled (Thrown e), w') => (Settled (Thrown e), w')
  | (Suspended p k', w') => (Suspended p (fun y => await_call (k' y) k), w')
  end.
Proof.
  revert w. induction a as [m|X m k' IH|p k' IH]; intros w; simpl.
  - destruct (m w) as [[x|e] w']; reflexivity.
  - destruct (m w) as [[x|e] w']; [apply IH | reflexivity].
  - destruct (await_settlement w p) as [[y|reason]|];
      [apply IH | reflexivity | reflexivity].
Qed.

Lemma get_prop_object w o c props key :
  read_object w o = Some (c, props) ->
  get_prop o key w = (Returned (default VUndefined (lookup_prop key props)), w).
Proof.
  unfold read_object, get_prop. destruct o as [| | | | | | |l]; try discriminate.
  destruct (w_heap w !! l) as [[c' props'| |]|]; try discriminate.
  intros [= -> ->]. reflexivity.
Qed.

Lemma join_items_cons ToString sep (a : string) (rest : list string) w :
  TurnstileError.join_items ToString sep (VStr a :: map VStr rest) w =
  (Returned (String.concat sep (a :: rest)), w).
Proof.
  revert a. induction rest as [|b rest IH]; intros a; [reflexivity|].
  change (map VStr (b :: rest)) with (VStr b :: map VStr rest).
  change (TurnstileError.join_items ToString sep
            (VStr a :: VStr b :: map VStr rest) w)
    with (bind (ret a) (fun s =>
            bind (TurnstileError.join_items ToString sep
                    (VStr b :: map VStr rest))
                 (fun t => ret (s +:+ sep +:+ t))) w).
  unfold bind, ret. rewrite IH. reflexivity.
Qed.

Lemma join_items_strings ToString sep (names : list string) w :
  TurnstileError.join_items ToString sep (map VStr names) w =
  (Returned (String.concat sep names), w).
Proof. destruct names; [reflexivity | apply join_items_cons]. Qed.

Lemma TurnstileError_new_strings ToString a (names : list string) w :
  w_heap w !! a = Some (ArrayObj (map VStr names)) ->
  TurnstileError.new ToString (VObj a) w =
  (Returned (VObj (length (w_heap w))),
   extend w [Object ClsTurnstileError
               [("message", VStr (turnstile_message names));
                ("codes", VObj a)]]).
Proof.
  intros H. unfold TurnstileError.new, bind, TurnstileError.join.
  rewrite H, join_items_strings. reflexivity.
Qed.

(** *** Driving a pending call *)

Lemma drive_settled (o : Outcome Val) (w : World) (schedule : Schedule) :
  drive (Settled o, w) schedule = (Settled o, w).
Proof. destruct schedule as [|[w2 s] rest]; reflexivity. Qed.

Lemma run_await_call_then (a : Async) (k : Val -> Async) (w : World) :
  run (await_call a k) w = then_state k (run a w).
Proof.
  rewrite run_await_call. unfold then_state.
  destruct (run a w) as [[[x|e]|p k'] w']; reflexivity.
Qed.

Lemma resume_then_state (k' k : Val -> Async) (s : Outcome Val) (w : World) :
  resume (fun y => await_call (k' y) k) s w = then_state k (resume k' s w).
Proof. destruct s as [x|reason]; [apply run_await_call_then | reflexivity]. Qed.

(** Resumptions of a caller that only waits for its callee are those of the
    callee. *)
Lemma drive_then_state (k : Val -> Async) (schedule : Schedule) :
  settles_at_once k ->
  forall st, drive (then_state k st) schedule = then_state k (drive st schedule).
Proof.
  intros Hk. induction schedule as [|[w2 s] rest IH]; intros st; [reflexivity|].
  destruct st as [[[x|e]|p k'] w']; cbn [then_state drive].
  - destruct (Hk x w') as (o & w'' & ->). reflexivity.
  - reflexivity.
  - rewrite resume_then_state. apply IH.
Qed.

Lemma run_Do {X} (m : M X) (k : X -> Async) (w : World) :
  run (Do m k) w =
  match m w with
  | (Returned x, w') => run (k x) w'
  | (Thrown e, w') => (Settled (Thrown e), w')
  end.
Proof. reflexivity. Qed.

Lemma drive_await (p : Val) (k : Val -> Async) (w : World) (schedule : Schedule) :
  drive (run (Await p k) w) schedule =
  match delivered w p schedule with
  | Some (wa, s, rest) => drive (resume k s wa) rest
  | None => (Suspended p k, w)
  end.
Proof.
  unfold delivered. cbn [run].
  destruct (await_settlement w p) as [[x|reason]|]; try reflexivity.
  destruct schedule as [|[w2 s] rest]; reflexivity.
Qed.

Lemma validate_after_response_settles_at_once (ToString : Val -> M string) :
  settles_at_once (validate_after_response ToString).
Proof.
  intros response w. unfold validate_after_response. cbn [run].
  destruct (get_prop response "success" w) as [[success|e] w1]; [|eauto].
  destruct (truthy success); cbn [run].
  - destruct (Result.ok response w1) as [o w2]. eauto.
  - destruct (get_prop response "error-codes" w1) as [[codes|e] w2]; [|eauto].
    cbn [run].
    destruct ((e <- TurnstileError.new ToString codes ;; Result.err e) w2)
      as [o w3]. eauto.
Qed.

(** [validate] is [req] followed by the mapping of its response, under
    every schedule. *)
Lemma drive_validate
    (fetch : Request -> M Val) (json : Val -> M Val) (ToString : Val -> M string)
    (this token ip idempotencyKey secretKey : Val) (w w0 : World)
    (schedule : Schedule) :
  get_prop this "secretKey" w = (Returned secretKey, w0) ->
  drive (run (CfTurnstile.validate fetch json ToString
                this token ip idempotencyKey) w) schedule =
  then_state (validate_after_response ToString)
    (drive (run (CfTurnstile.req fetch json
                   (CfTurnstile.request_of secretKey token ip idempotencyKey)) w0)
           schedule).
Proof.
  intros Hkey.
  change (CfTurnstile.validate fetch json ToString this token ip idempotencyKey)
    with (Do (get_prop this "secretKey") (fun key =>
            await_call
              (CfTurnstile.req fetch json
                 (CfTurnstile.request_of key token ip idempotencyKey))
              (validate_after_response ToString))).
  cbn [run]. rewrite Hkey, run_await_call_then.
  apply drive_then_state. apply validate_after_response_settles_at_once.
Qed.

(** C9. Whenever the request resolves with a response body, be it at the
    call or on a later resumption of the pending call, under every
    schedule of resumptions, [validate] settles with [Result.ok] of that
    very body if its [success] is true, and, if its [success] is false,
    with [Result.err] of a new [TurnstileError] whose [codes] is the body's
    ["error-codes"] array and whose message lists these codes. *)
Theorem validate_maps_response
    (fetch : Request -> M Val) (json : Val -> M Val)
    (ToString : Val -> M string)
    (this token ip idempotencyKey secretKey body : Val) (w w0 w1 : World)
    (c : Class) (props : list (string * Val)) (schedule : Schedule) :
  get_prop this "secretKey" w = (Returned secretKey, w0) ->
  drive (run (CfTurnstile.req fetch json
                (CfTurnstile.request_of secretKey token ip idempotencyKey)) w0)
        schedule =
    (Settled (Returned body), w1) ->
  read_object w1 body = Some (c, props) ->
  let call :=
    drive (run (CfTurnstile.validate fetch json ToString
                  this token ip idempotencyKey) w) schedule in
  (lookup_prop "success" props = Some (VBool true) ->
   exists r w2,
     call = (Settled (Returned r), w2) /\ variant_of w2 r = Some (Ok body))
  /\ (forall a names,
        lookup_prop "success" props = Some (VBool false) ->
        lookup_prop "error-codes" props = Some (VObj a) ->
        w_heap w1 !! a = Some (ArrayObj (map VStr names)) ->
        exists r e w2,
          call = (Settled (Returned r), w2)
          /\ variant_of w2 r = Some (Err e)
          /\ read_object w2 e =
               Some (ClsTurnstileError,
                     [("message", VStr (turnstile_message names));
                      ("codes", VObj a)])).
Proof.
  intros Hkey Hreq Hbody. cbv zeta.
  rewrite (drive_validate fetch json ToString this token ip idempotencyKey
             secretKey w w0 schedule Hkey), Hreq.
  cbn [then_state]. unfold validate_after_response. cbn [run].
  rewrite (get_prop_object _ _ _ _ "success" Hbody). split.
  - intros Hs. rewrite Hs. cbn [from_option id truthy run]. rewrite ok_run.
    eexists _, _. split; [reflexivity|]. apply ok_variant.
  - intros a names Hs Hc Ha. rewrite Hs. cbn [from_option id truthy run].
    rewrite (get_prop_object _ _ _ _ "error-codes" Hbody), Hc.
    cbn [from_option id run]. unfold bind.
    rewrite (TurnstileError_new_strings ToString a names w1 Ha), err_run.
    eexists _, _, _. split; [reflexivity|]. split; [apply err_variant|].
    apply read_object_grow. unfold read_object, extend. simpl.
    rewrite lookup_fresh_0. reflexivity.
Qed.

Lemma validate_maps_response_witness :
  (exists r w2,
      run (CfTurnstile.validate sample_fetch sample_json_success sample_ToString
             (VObj 0) (VStr "token") VUndefined VUndefined) world_turnstile =
        (Settled (Returned r), w2)
      /\ variant_of w2 r = Some (Ok (VObj 3)))
  /\ (exists r e w2,
        run (CfTurnstile.validate sample_fetch sample_json_failure sample_ToString
               (VObj 0) (VStr "token") (VStr "203.0.113.7") VUndefined)
            world_turnstile =
          (Settled (Returned r), w2)
        /\ variant_of w2 r = Some (Err e)
        /\ read_object w2 e =
             Some (ClsTurnstileError,
                   [("message",
                     VStr "Cloudflare Turnstile returned error codes: 'invalid-input-response'");
                    ("codes", VObj 2)]))
  /\ (fst (run (CfTurnstile.validate sample_fetch_pending sample_json_failure
                  sample_ToString (VObj 0) (VStr "token") VUndefined VUndefined)
               world_turnstile) =
        Suspended (VObj 1)
          (fun y => await_call
                      (Do (sample_json_failure y) (fun q =>
                       Await q (fun result => Return_ (ret result))))
                      (validate_after_response sample_ToString))
      /\ exists r e w2,
          drive (run (CfTurnstile.validate sample_fetch_pending
                        sample_json_failure sample_ToString
                        (VObj 0) (VStr "token") VUndefined VUndefined)
                     world_turnstile)
                [(world_response_arrived, Returned (VStr "response"))] =
            (Settled (Returned r), w2)
          /\ variant_of w2 r = Some (Err e)
          /\ read_object w2 e =
               Some (ClsTurnstileError,
                     [("message",
                       VStr "Cloudflare Turnstile returned error codes: 'invalid-input-response'");
                      ("codes", VObj 2)])).
Proof.
  split; [|split; [|split; [reflexivity|]]].
  - refine (proj1 (validate_maps_response
                     sample_fetch sample_json_success sample_ToString
                     (VObj 0) (VStr "token") VUndefined VUndefined
                     (VStr "1x0000000000000000000000000000000AA") (VObj 3)
                     world_turnstile world_turnstile _ ClsObject _ []
                     eq_refl eq_refl eq_refl) eq_refl).
  - refine (proj2 (validate_maps_response
                     sample_fetch sample_json_failure sample_ToString
                     (VObj 0) (VStr "token") (VStr "203.0.113.7") VUndefined
                     (VStr "1x0000000000000000000000000000000AA") (VObj 3)
                     world_turnstile world_turnstile _ ClsObject _ []
                     eq_refl eq_refl eq_refl)
                  2 ["invalid-input-response"] eq_refl eq_refl eq_refl).
  - refine (proj2 (validate_maps_response
                     sample_fetch_pending sample_json_failure sample_ToString
                     (VObj 0) (VStr "token") VUndefined VUndefined
                     (VStr "1x0000000000000000000000000000000AA") (VObj 3)
                     world_turnstile world_turnstile _ ClsObject _
                     [(world_response_arrived, Returned (VStr "response"))]
                     eq_refl eq_refl eq_refl)
                  2 ["invalid-input-response"] eq_refl eq_refl eq_refl).
Defined.

(** * Further properties of the code *)

(** ** Construction and queries *)

Lemma lookup_extend_old (w : World) (objs : list Obj) (l : loc) (o : Obj) :
  w_heap w !! l = Some o -> w_heap (extend w objs) !! l = Some o.
Proof. intros H. unfold extend. simpl. apply lookup_app_l_Some. exact H. Qed.

Lemma read_object_fresh (w : World) (n : nat) :
  length (w_heap w) <= n -> read_object w (VObj n) = None.
Proof.
  intros H. unfold read_object. rewrite lookup_ge_None_2; [reflexivity | lia].
Qed.

(** X1. [Result.ok(v)] and [Result.err(e)] always return: they give an
    instance that did not exist before, that is [Ok] of [v] (resp. [Err] of
    [e]), and every object of the store is as it was. *)
Theorem construction_is_fresh_and_total (v : Val) (w : World) :
  (exists r w',
      Result.ok v w = (Returned r, w')
      /\ variant_of w' r = Some (Ok v)
      /\ read_object w r = None
      /\ forall l o, w_heap w !! l = Some o -> w_heap w' !! l = Some o)
  /\ (exists r w',
        Result.err v w = (Returned r, w')
        /\ variant_of w' r = Some (Err v)
        /\ read_object w r = None
        /\ forall l o, w_heap w !! l = Some o -> w_heap w' !! l = Some o).
Proof.
  split; eexists _, _.
  - rewrite ok_run. split; [reflexivity|]. split; [apply ok_variant|].
    split; [apply read_object_fresh; lia|]. intros l o. apply lookup_extend_old.
  - rewrite err_run. split; [reflexivity|]. split; [apply err_variant|].
    split; [apply read_object_fresh; lia|]. intros l o. apply lookup_extend_old.
Qed.

(** X2. [isOk()] answers [true] exactly on an [Ok], [isErr()] is its
    negation, and neither touches the world. *)
Theorem isOk_isErr_are_opposite (w : World) (r : Val) (x : Variant) :
  variant_of w r = Some x ->
  Result.prototype.isOk r w = (Returned (VBool (is_ok x)), w)
  /\ Result.prototype.isErr r w = (Returned (VBool (negb (is_ok x))), w).
Proof.
  intros H. unfold Result.prototype.isOk, Result.prototype.isErr, bind.
  rewrite (success_of_variant _ _ _ H). split; reflexivity.
Qed.

Lemma isOk_isErr_are_opposite_witness :
  Result.prototype.isOk (VObj 1) sample_err = (Returned (VBool false), sample_err)
  /\ Result.prototype.isErr (VObj 1) sample_err = (Returned (VBool true), sample_err).
Proof.
  exact (isOk_isErr_are_opposite sample_err (VObj 1) (Err (VStr "boom")) eq_refl).
Defined.

(** X3. [isOkAnd(f)] is the call of [f] on the payload of an [Ok] and
    [false] on an [Err], where [f] is not invoked; [isErrAnd(f)] is the
    call of [f] on the payload of an [Err] and [false] on an [Ok]. *)
Theorem predicates_skip_inactive_variant
    (w : World) (r : Val) (x : Variant) (f : Val -> M Val) :
  variant_of w r = Some x ->
  Result.prototype.isOkAnd r f w =
    match x with Ok v => f v w | Err _ => (Returned (VBool false), w) end
  /\ Result.prototype.isErrAnd r f w =
    match x with Ok _ => (Returned (VBool false), w) | Err e => f e w end.
Proof.
  intros H. unfold Result.prototype.isOkAnd, Result.prototype.isErrAnd.
  rewrite !(match_variant _ _ _ _ _ H). destruct x; split; reflexivity.
Qed.

Lemma predicates_skip_inactive_variant_witness :
  Result.prototype.isOkAnd (VObj 1) forbidden sample_err =
    (Returned (VBool false), sample_err)
  /\ Result.prototype.isErrAnd (VObj 1) forbidden sample_ok =
    (Returned (VBool false), sample_ok).
Proof.
  split.
  - exact (proj1 (predicates_skip_inactive_variant
                    sample_err (VObj 1) (Err (VStr "boom")) forbidden eq_refl)).
  - exact (proj2 (predicates_skip_inactive_variant
                    sample_ok (VObj 1) (Ok (VNum 3)) forbidden eq_refl)).
Defined.

(** ** The combinators on the error side *)

(** X4. On an [Ok], [mapErr(op)], [or(res)] and [orElse(op)] return the
    receiver itself without invoking [op] and without touching the world.
    On an [Err] of [e], [mapErr(op)] is [Result.err] of what [op(e)]
    returns, [or(res)] is [res] and [orElse(op)] is [op(e)]. *)
Theorem error_side_combinators
    (w : World) (r : Val) (x : Variant) (op : Val -> M Val) (res : Val) :
  variant_of w r = Some x ->
  Result.prototype.mapErr r op w =
    match x with
    | Ok _ => (Returned r, w)
    | Err e => (y <- op e ;; Result.err y) w
    end
  /\ Result.prototype.or_ r res w =
    (Returned (match x with Ok _ => r | Err _ => res end), w)
  /\ Result.prototype.orElse r op w =
    match x with Ok _ => (Returned r, w) | Err e => op e w end.
Proof.
  intros H.
  unfold Result.prototype.mapErr, Result.prototype.or_, Result.prototype.orElse.
  rewrite !(match_variant _ _ _ _ _ H). destruct x; repeat split; reflexivity.
Qed.

Lemma error_side_combinators_witness :
  Result.prototype.mapErr (VObj 1) forbidden sample_ok = (Returned (VObj 1), sample_ok)
  /\ Result.prototype.or_ (VObj 1) (VObj 7) sample_err = (Returned (VObj 7), sample_err)
  /\ Result.prototype.orElse (VObj 1) identity sample_err =
       (Returned (VStr "boom"), sample_err).
Proof.
  destruct (error_side_combinators sample_ok (VObj 1) (Ok (VNum 3))
              forbidden (VObj 7) eq_refl) as (HmapErr & _ & _).
  destruct (error_side_combinators sample_err (VObj 1) (Err (VStr "boom"))
              identity (VObj 7) eq_refl) as (_ & Hor & HorElse).
  split; [exact HmapErr|]. split; [exact Hor | exact HorElse].
Defined.

(** ** Extraction with a default *)

(** X5. On an [Ok] of [v], [mapOr(d, f)] and [mapOrElse(dfn, f)] are the
    call [f(v)], [unwrapOr(d)] and [unwrapOrElse(thunk)] return [v], and
    neither [dfn] nor [thunk] runs.  On an [Err] of [e], [mapOr] and
    [unwrapOr] return the default without invoking [f], [mapOrElse] is the
    call [dfn(e)], and [unwrapOrElse] is the run of [thunk]. *)
Theorem defaults_are_used_only_on_err
    (w : World) (r : Val) (x : Variant)
    (d : Val) (dfn f : Val -> M Val) (thunk : M Val) :
  variant_of w r = Some x ->
  Result.prototype.mapOr r d f w =
    match x with Ok v => f v w | Err _ => (Returned d, w) end
  /\ Result.prototype.mapOrElse r dfn f w =
    match x with Ok v => f v w | Err e => dfn e w end
  /\ Result.prototype.unwrapOr r d w =
    (Returned (match x with Ok v => v | Err _ => d end), w)
  /\ Result.prototype.unwrapOrElse r thunk w =
    match x with Ok v => (Returned v, w) | Err _ => thunk w end.
Proof.
  intros H.
  unfold Result.prototype.mapOr, Result.prototype.mapOrElse,
    Result.prototype.unwrapOr, Result.prototype.unwrapOrElse.
  rewrite !(match_variant _ _ _ _ _ H). destruct x; repeat split; reflexivity.
Qed.

Lemma defaults_are_used_only_on_err_witness :
  Result.prototype.mapOr (VObj 1) (VNum 0) forbidden sample_err =
    (Returned (VNum 0), sample_err)
  /\ Result.prototype.mapOrElse (VObj 1) forbidden identity sample_ok =
    (Returned (VNum 3), sample_ok)
  /\ Result.prototype.unwrapOr (VObj 1) (VNum 0) sample_err =
    (Returned (VNum 0), sample_err)
  /\ Result.prototype.unwrapOrElse (VObj 1) (forbidden VUndefined) sample_ok =
    (Returned (VNum 3), sample_ok).
Proof.
  destruct (defaults_are_used_only_on_err sample_err (VObj 1) (Err (VStr "boom"))
              (VNum 0) forbidden forbidden (forbidden VUndefined) eq_refl)
    as (HmapOr & _ & HunwrapOr & _).
  destruct (defaults_are_used_only_on_err sample_ok (VObj 1) (Ok (VNum 3))
              (VNum 0) forbidden identity (forbidden VUndefined) eq_refl)
    as (_ & HmapOrElse & _ & HunwrapOrElse).
  split; [exact HmapOr|]. split; [exact HmapOrElse|].
  split; [exact HunwrapOr | exact HunwrapOrElse].
Defined.

(** ** Inspection *)

(** X6. [inspect(f)] on an [Ok] of [v] calls [f(v)], drops what it
    returns and returns the receiver itself; a throw of [f] is not caught.
    On an [Err] it returns the receiver without invoking [f].
    [inspectErr(f)] is the same with the variants exchanged. *)
Theorem inspect_returns_receiver
    (w : World) (r : Val) (x : Variant) (f : Val -> M Val) :
  variant_of w r = Some x ->
  Result.prototype.inspect r f w =
    match x with
    | Ok v => (f v ;;; ret r) w
    | Err _ => (Returned r, w)
    end
  /\ Result.prototype.inspectErr r f w =
    match x with
    | Ok _ => (Returned r, w)
    | Err e => (f e ;;; ret r) w
    end.
Proof.
  intros H. split.
  - unfold Result.prototype.inspect, bind, ret.
    rewrite (success_of_variant _ _ _ H).
    destruct x as [v|e]; cbn [is_ok truthy]; [|reflexivity].
    rewrite (value_of_variant _ _ _ H). cbn [payload].
    destruct (f v w) as [[y|thrown] w']; reflexivity.
  - unfold Result.prototype.inspectErr, bind, ret.
    rewrite (success_of_variant _ _ _ H).
    destruct x as [v|e]; cbn [is_ok truthy negb]; [reflexivity|].
    rewrite (value_of_variant _ _ _ H). cbn [payload].
    destruct (f e w) as [[y|thrown] w']; reflexivity.
Qed.

Lemma inspect_returns_receiver_witness :
  Result.prototype.inspect (VObj 1) identity sample_ok = (Returned (VObj 1), sample_ok)
  /\ Result.prototype.inspect (VObj 1) forbidden sample_err =
       (Returned (VObj 1), sample_err)
  /\ Result.prototype.inspectErr (VObj 1) forbidden sample_err =
       (Thrown (VStr "this handler must not be invoked"), sample_err).
Proof.
  destruct (inspect_returns_receiver sample_ok (VObj 1) (Ok (VNum 3))
              identity eq_refl) as (Hok & _).
  destruct (inspect_returns_receiver sample_err (VObj 1) (Err (VStr "boom"))
              forbidden eq_refl) as (Herr & HinspectErr).
  split; [exact Hok|]. split; [exact Herr | exact HinspectErr].
Defined.

(** ** What the methods never do *)

(** X7. Apart from [unwrap()] and [orThrow()], a call on a [Result]
    returns whenever the callbacks it is given return: no other method
    throws by itself. *)
Theorem only_extraction_throws (w : World) (r : Val) (x : Variant) (c : Call) :
  variant_of w r = Some x ->
  may_throw c = false ->
  callbacks_return c ->
  exists y w', invoke c r w = (Returned y, w').
Proof.
  intros H Hm Hc.
  destruct c; try discriminate Hm; simpl in Hc; cbn [invoke];
    unfold Result.prototype.isOk, Result.prototype.isOkAnd,
      Result.prototype.isErr, Result.prototype.isErrAnd,
      Result.prototype.map, Result.prototype.mapOr,
      Result.prototype.mapOrElse, Result.prototype.mapErr,
      Result.prototype.and_, Result.prototype.andThen,
      Result.prototype.or_, Result.prototype.orElse,
      Result.prototype.unwrapOr, Result.prototype.unwrapOrElse,
      Result.prototype.branch;
    rewrite ?(match_variant _ _ _ _ _ H).
  - rewrite (success_of_variant _ _ _ H). eauto.
  - destruct x; [apply Hc | eauto].
  - unfold bind. rewrite (success_of_variant _ _ _ H). eauto.
  - destruct x; [eauto | apply Hc].
  - unfold Result.prototype.ok, bind. rewrite (success_of_variant _ _ _ H).
    destruct x; cbn [is_ok truthy]; [rewrite (value_of_variant _ _ _ H); eauto|].
    destruct (truthy noneSymbol); eauto.
  - unfold Result.prototype.err, bind. rewrite (success_of_variant _ _ _ H).
    destruct x; cbn [is_ok truthy negb];
      [|rewrite (value_of_variant _ _ _ H); eauto].
    destruct (truthy noneSymbol); eauto.
  - destruct x as [v|e]; [|eauto]. unfold bind.
    destruct (Hc v w) as (y & w' & ->). rewrite ok_run. eauto.
  - destruct x; [apply Hc | eauto].
  - destruct Hc as [Hd Hf]. destruct x; [apply Hf | apply Hd].
  - destruct x as [v|e]; [eauto|]. unfold bind.
    destruct (Hc e w) as (y & w' & ->). rewrite err_run. eauto.
  - unfold Result.prototype.inspect, bind, ret.
    rewrite (success_of_variant _ _ _ H).
    destruct x as [v|e]; cbn [is_ok truthy]; [|eauto].
    rewrite (value_of_variant _ _ _ H). cbn [payload].
    destruct (Hc v w) as (y & w' & ->). eauto.
  - unfold Result.prototype.inspectErr, bind, ret.
    rewrite (success_of_variant _ _ _ H).
    destruct x as [v|e]; cbn [is_ok truthy negb]; [eauto|].
    rewrite (value_of_variant _ _ _ H). cbn [payload].
    destruct (Hc e w) as (y & w' & ->). eauto.
  - destruct x; eauto.
  - destruct x; [apply Hc | eauto].
  - destruct x; eauto.
  - destruct x; [eauto | apply Hc].
  - destruct x; eauto.
  - destruct x; [eauto | apply (Hc tt)].
  - destruct Hc as [Hd Hf]. destruct x; [apply Hd | apply Hf].
  - destruct x; unfold alloc; eauto.
Qed.

Lemma returns_identity : returns identity.
Proof. intros x w. exists x, w. reflexivity. Qed.

Lemma only_extraction_throws_witness :
  (exists y w', invoke (CallMapErr identity) (VObj 1) sample_err = (Returned y, w'))
  /\ (exists y w', invoke CallBranch (VObj 1) sample_err = (Returned y, w')).
Proof.
  split.
  - exact (only_extraction_throws sample_err (VObj 1) (Err (VStr "boom"))
             (CallMapErr identity) eq_refl eq_refl returns_identity).
  - exact (only_extraction_throws sample_err (VObj 1) (Err (VStr "boom"))
             CallBranch eq_refl eq_refl I).
Defined.

(** X8. The queries, the projections, [and], [or] and [unwrapOr] return
    and leave the world exactly as it was: they create no object and
    announce nothing. *)
Theorem reading_calls_have_no_effect (w : World) (r : Val) (x : Variant) (c : Call) :
  variant_of w r = Some x ->
  reads_only c = true ->
  exists y, invoke c r w = (Returned y, w).
Proof.
  intros H Hc.
  destruct c; try discriminate Hc; cbn [invoke];
    unfold Result.prototype.isOk, Result.prototype.isErr,
      Result.prototype.and_, Result.prototype.or_, Result.prototype.unwrapOr;
    rewrite ?(match_variant _ _ _ _ _ H).
  - rewrite (success_of_variant _ _ _ H). eauto.
  - unfold bind. rewrite (success_of_variant _ _ _ H). eauto.
  - unfold Result.prototype.ok, bind. rewrite (success_of_variant _ _ _ H).
    destruct x; cbn [is_ok truthy]; [rewrite (value_of_variant _ _ _ H); eauto|].
    destruct (truthy noneSymbol); eauto.
  - unfold Result.prototype.err, bind. rewrite (success_of_variant _ _ _ H).
    destruct x; cbn [is_ok truthy negb];
      [|rewrite (value_of_variant _ _ _ H); eauto].
    destruct (truthy noneSymbol); eauto.
  - destruct x; eauto.
  - destruct x; eauto.
  - destruct x; eauto.
Qed.

Lemma reading_calls_have_no_effect_witness :
  exists y, invoke (CallAnd (VObj 7)) (VObj 1) sample_ok = (Returned y, sample_ok).
Proof.
  exact (reading_calls_have_no_effect sample_ok (VObj 1) (Ok (VNum 3))
           (CallAnd (VObj 7)) eq_refl eq_refl).
Defined.

(** ** How the combinators compose *)

(** X9. [andThen] is associative: [r.andThen(f).andThen(g)] is
    [r.andThen(v => f(v).andThen(g))], with the same effects, for all
    callbacks. *)
Theorem andThen_is_associative
    (w : World) (r : Val) (x : Variant) (f g : Val -> M Val) :
  variant_of w r = Some x ->
  (r1 <- Result.prototype.andThen r f ;; Result.prototype.andThen r1 g) w =
  Result.prototype.andThen r
    (fun v => r1 <- f v ;; Result.prototype.andThen r1 g) w.
Proof.
  intros H. unfold bind at 1.
  unfold Result.prototype.andThen at 1 3.
  rewrite !(match_variant _ _ _ _ _ H). destruct x as [v|e]; [reflexivity|].
  unfold ret at 1. cbv beta iota.
  unfold Result.prototype.andThen. rewrite (match_variant _ _ _ _ _ H).
  reflexivity.
Qed.

Lemma andThen_is_associative_witness :
  (r1 <- Result.prototype.andThen (VObj 1) Result.ok ;;
   Result.prototype.andThen r1 Result.err) sample_ok =
  Result.prototype.andThen (VObj 1)
    (fun v => r1 <- Result.ok v ;; Result.prototype.andThen r1 Result.err)
    sample_ok.
Proof.
  exact (andThen_is_associative sample_ok (VObj 1) (Ok (VNum 3))
           Result.ok Result.err eq_refl).
Defined.

Lemma fresh_instance_is_new (w : World) (r : Val) (x : Variant) :
  variant_of w r = Some x ->
  read_object w (VObj (S (length (w_heap w)))) = None
  /\ VObj (S (length (w_heap w))) <> r.
Proof.
  intros H.
  assert (Hfresh : read_object w (VObj (S (length (w_heap w)))) = None)
    by (apply read_object_fresh; lia).
  split; [exact Hfresh|]. intros E. rewrite <- E in H.
  unfold variant_of in H. rewrite Hfresh in H. discriminate.
Qed.

(** X10. [r.andThen(Result.ok)] and [r.map(v => v)] return a [Result] of
    the variant and payload of [r].  On an [Ok] it is a new instance: an
    object that did not exist before the call, other than the receiver,
    which stays as it was.  On an [Err] it is the receiver itself and the
    world is unchanged. *)
Theorem andThen_ok_and_map_identity (w : World) (r : Val) (x : Variant) :
  variant_of w r = Some x ->
  (exists r' w',
      Result.prototype.andThen r Result.ok w = (Returned r', w')
      /\ variant_of w' r' = Some x
      /\ (is_ok x = true ->
            read_object w r' = None /\ r' <> r /\ variant_of w' r = Some x)
      /\ (is_ok x = false -> r' = r /\ w' = w))
  /\ (exists r' w',
        Result.prototype.map r identity w = (Returned r', w')
        /\ variant_of w' r' = Some x
        /\ (is_ok x = true ->
              read_object w r' = None /\ r' <> r /\ variant_of w' r = Some x)
        /\ (is_ok x = false -> r' = r /\ w' = w)).
Proof.
  intros H. unfold Result.prototype.andThen, Result.prototype.map.
  rewrite !(match_variant _ _ _ _ _ H).
  destruct (fresh_instance_is_new w r x H) as [Hfresh Hother].
  destruct x as [v|e]; split; eexists _, _.
  - rewrite ok_run. split; [reflexivity|]. split; [apply ok_variant|].
    split; [|discriminate]. intros _. split; [exact Hfresh|].
    split; [exact Hother|]. apply variant_of_grow. exact H.
  - unfold bind, identity, ret. rewrite ok_run.
    split; [reflexivity|]. split; [apply ok_variant|].
    split; [|discriminate]. intros _. split; [exact Hfresh|].
    split; [exact Hother|]. apply variant_of_grow. exact H.
  - split; [reflexivity|]. split; [exact H|]. split; [discriminate | auto].
  - split; [reflexivity|]. split; [exact H|]. split; [discriminate | auto].
Qed.

Lemma andThen_ok_and_map_identity_witness :
  (exists r' w',
      Result.prototype.andThen (VObj 1) Result.ok sample_ok = (Returned r', w')
      /\ variant_of w' r' = Some (Ok (VNum 3))
      /\ read_object sample_ok r' = None
      /\ r' <> VObj 1)
  /\ (exists r'' w'',
        Result.prototype.map (VObj 1) identity sample_err = (Returned r'', w'')
        /\ r'' = VObj 1 /\ w'' = sample_err).
Proof.
  destruct (proj1 (andThen_ok_and_map_identity sample_ok (VObj 1) (Ok (VNum 3))
                     eq_refl)) as (r' & w' & Hrun & Hvar & Hnew & _).
  destruct (proj2 (andThen_ok_and_map_identity sample_err (VObj 1)
                     (Err (VStr "boom")) eq_refl))
    as (r'' & w'' & Hrun' & _ & _ & Hsame).
  split.
  - exists r', w'. split; [exact Hrun|]. split; [exact Hvar|].
    destruct (Hnew eq_refl) as (Hfresh & Hother & _).
    split; [exact Hfresh | exact Hother].
  - exists r'', w''. split; [exact Hrun' | exact (Hsame eq_refl)].
Defined.

(** X11. [map] composes: for callbacks that only compute, [r.map(F).map(G)]
    and [r.map(v => G(F(v)))] both return a [Result] with [G(F(v))] under
    [Ok], or the error of [r] unchanged under [Err]. *)
Theorem map_composes (w : World) (r : Val) (x : Variant) (F G : Val -> Val) :
  variant_of w r = Some x ->
  (exists r2 w2,
      (r1 <- Result.prototype.map r (pure F) ;;
       Result.prototype.map r1 (pure G)) w = (Returned r2, w2)
      /\ variant_of w2 r2 = Some (map_variant (fun v => G (F v)) x))
  /\ (exists r3 w3,
        Result.prototype.map r (pure (fun v => G (F v))) w = (Returned r3, w3)
        /\ variant_of w3 r3 = Some (map_variant (fun v => G (F v)) x)).
Proof.
  intros H. unfold bind at 1. unfold Result.prototype.map at 1 3.
  rewrite !(match_variant _ _ _ _ _ H).
  destruct x as [v|e]; cbn [map_variant]; split; eexists _, _.
  - unfold bind at 1, pure at 1, ret at 1. rewrite ok_run. cbv beta iota.
    unfold Result.prototype.map.
    rewrite (match_variant _ _ _ _ _ (ok_variant (F v) w)).
    unfold bind, pure, ret. rewrite ok_run.
    split; [reflexivity|]. apply ok_variant.
  - unfold bind, pure, ret. rewrite ok_run.
    split; [reflexivity|]. apply ok_variant.
  - unfold ret at 1. cbv beta iota. unfold Result.prototype.map.
    rewrite (match_variant _ _ _ _ _ H). split; [reflexivity | exact H].
  - split; [reflexivity | exact H].
Qed.

Lemma map_composes_witness :
  exists r2 w2,
    (r1 <- Result.prototype.map (VObj 1) (pure (fun _ => VNum 4)) ;;
     Result.prototype.map r1 (pure (fun _ => VNum 5))) sample_ok = (Returned r2, w2)
    /\ variant_of w2 r2 = Some (Ok (VNum 5)).
Proof.
  exact (proj1 (map_composes sample_ok (VObj 1) (Ok (VNum 3))
                  (fun _ => VNum 4) (fun _ => VNum 5) eq_refl)).
Defined.

(** ** Reading the outcome of [branch()] *)

(** X12. In the object that [branch()] returns, [isBreak] is what
    [isErr()] answers, and [value] is the payload of an [Ok] and the
    receiver itself on an [Err]: a caller that returns [value] on a break
    returns the very [Result] that failed. *)
Theorem branch_discriminant (w : World) (r : Val) (x : Variant) :
  variant_of w r = Some x ->
  let w' := snd (Result.prototype.branch r w) in
  (result <- Result.prototype.branch r ;; get_prop result "isBreak") w =
    (Returned (VBool (negb (is_ok x))), w')
  /\ (result <- Result.prototype.branch r ;; get_prop result "value") w =
    (Returned (match x with Ok v => v | Err _ => r end), w')
  /\ variant_of w' r = Some x.
Proof.
  intros H. cbv zeta. unfold Result.prototype.branch, bind.
  rewrite (match_variant _ _ _ _ _ H).
  destruct x as [v|e]; unfold alloc, get_prop; cbn [snd w_heap];
    rewrite lookup_fresh_0;
    (split; [reflexivity|]); (split; [reflexivity|]);
    apply variant_of_grow; exact H.
Qed.

Lemma branch_discriminant_witness :
  (result <- Result.prototype.branch (VObj 1) ;; get_prop result "isBreak") sample_err =
    (Returned (VBool true), snd (Result.prototype.branch (VObj 1) sample_err))
  /\ (result <- Result.prototype.branch (VObj 1) ;; get_prop result "value") sample_err =
    (Returned (VObj 1), snd (Result.prototype.branch (VObj 1) sample_err)).
Proof.
  destruct (branch_discriminant sample_err (VObj 1) (Err (VStr "boom")) eq_refl)
    as (HisBreak & Hvalue & _).
  split; [exact HisBreak | exact Hvalue].
Defined.

(** ** Catching what the extraction points throw *)

(** X14. [try { r.unwrap() } catch (p) { p.cause }] gives the payload of
    [r] on both variants: on an [Err] the [Panic] hands the error payload
    back as its [cause]. *)
Theorem unwrap_cause_round_trip (w : World) (r : Val) (x : Variant) :
  variant_of w r = Some x ->
  fst (try_catch (Result.prototype.unwrap r)
                 (fun thrown => get_prop thrown "cause") w) =
  Returned (payload x).
Proof.
  intros H. unfold try_catch, Result.prototype.unwrap.
  rewrite (match_variant _ _ _ _ _ H). destruct x as [v|e]; [reflexivity|].
  unfold bind, Panic.new, alloc, throw, get_prop. cbn [w_heap].
  rewrite lookup_fresh_0. reflexivity.
Qed.

Lemma unwrap_cause_round_trip_witness :
  fst (try_catch (Result.prototype.unwrap (VObj 1))
                 (fun thrown => get_prop thrown "cause") sample_err) =
  Returned (VStr "boom").
Proof.
  exact (unwrap_cause_round_trip sample_err (VObj 1) (Err (VStr "boom")) eq_refl).
Defined.

(** X15. [try { return r.orThrow() } catch (e) { return h(e) }] is
    [r.match(v => v, h)]: what [orThrow()] throws is what [match] hands to
    its second handler. *)
Theorem orThrow_caught_is_match (w : World) (r : Val) (x : Variant) (h : Val -> M Val) :
  variant_of w r = Some x ->
  try_catch (Result.prototype.orThrow r) h w =
  Result.prototype.match_ r (fun v => ret v) h w.
Proof.
  intros H. unfold try_catch, Result.prototype.orThrow.
  rewrite !(match_variant _ _ _ _ _ H). destruct x; reflexivity.
Qed.

Lemma orThrow_caught_is_match_witness :
  try_catch (Result.prototype.orThrow (VObj 1)) identity sample_err =
  Result.prototype.match_ (VObj 1) (fun v => ret v) identity sample_err.
Proof.
  exact (orThrow_caught_is_match sample_err (VObj 1) (Err (VStr "boom"))
           identity eq_refl).
Defined.

(** ** The sentinel tells the variants apart *)

(** X16. For a payload that is not the sentinel itself, [ok(true)] returns
    [Result.none] exactly on an [Err] and [err(true)] exactly on an [Ok]:
    also when the payload is [null], which the default mode cannot tell
    from absence. *)
Theorem sentinel_detects_variant (w : World) (r : Val) (x : Variant) :
  variant_of w r = Some x ->
  payload x <> Result.none ->
  (fst (Result.prototype.ok r (VBool true) w) = Returned Result.none
   <-> is_ok x = false)
  /\ (fst (Result.prototype.err r (VBool true) w) = Returned Result.none
      <-> is_ok x = true).
Proof.
  intros H Hp. unfold Result.prototype.ok, Result.prototype.err, bind.
  rewrite (success_of_variant _ _ _ H).
  destruct x as [v|e]; cbn [is_ok truthy negb payload] in *;
    rewrite ?(value_of_variant _ _ _ H); cbn [fst payload ret];
    split; split; intros E; try reflexivity; try discriminate;
    exfalso; apply Hp; congruence.
Qed.

Lemma sentinel_detects_variant_witness :
  fst (Result.prototype.ok (VObj 1) VUndefined sample_ok_null) = Returned VNull
  /\ fst (Result.prototype.ok (VObj 1) VUndefined sample_err) = Returned VNull
  /\ fst (Result.prototype.ok (VObj 1) (VBool true) sample_ok_null) <>
       Returned Result.none
  /\ fst (Result.prototype.ok (VObj 1) (VBool true) sample_err) =
       Returned Result.none.
Proof.
  assert (Hnull : VNull <> Result.none) by discriminate.
  assert (Hboom : VStr "boom" <> Result.none) by discriminate.
  destruct (sentinel_detects_variant sample_ok_null (VObj 1) (Ok VNull)
              eq_refl Hnull) as [[Hok _] _].
  destruct (sentinel_detects_variant sample_err (VObj 1) (Err (VStr "boom"))
              eq_refl Hboom) as [[_ Herr] _].
  split; [reflexivity|]. split; [reflexivity|]. split.
  - intros E. specialize (Hok E). discriminate Hok.
  - exact (Herr eq_refl).
Defined.

(** ** The request of the Turnstile wrapper *)

(** X17. The form always carries [secret] and [response]; it carries
    [remoteip] exactly when [ip] is a non-empty string, and
    [idempotency_key] exactly when [idempotencyKey] is one: an omitted or
    empty argument is not sent.  The request is a POST to the endpoint. *)
Theorem form_fields (secretKey token ip idempotencyKey : Val) (s : string) :
  let form := CfTurnstile.form_data secretKey token in
  lookup_prop "secret" (form ip idempotencyKey) = Some secretKey
  /\ lookup_prop "response" (form ip idempotencyKey) = Some token
  /\ lookup_prop "remoteip" (form VUndefined idempotencyKey) = None
  /\ lookup_prop "remoteip" (form (VStr s) idempotencyKey) =
       (if String.eqb s "" then None else Some (VStr s))
  /\ lookup_prop "idempotency_key" (form ip VUndefined) = None
  /\ lookup_prop "idempotency_key" (form ip (VStr s)) =
       (if String.eqb s "" then None else Some (VStr s))
  /\ req_url (CfTurnstile.request_of secretKey token ip idempotencyKey) =
       CfTurnstile.ENDPOINT
  /\ req_method (CfTurnstile.request_of secretKey token ip idempotencyKey) = "POST".
Proof.
  cbv zeta. unfold CfTurnstile.form_data. cbn [truthy].
  destruct (truthy ip), (truthy idempotencyKey), (String.eqb s "");
    repeat split; reflexivity.
Qed.

(** ** How [req] and [validate] settle *)

(** X18. How [req] settles under every schedule of resumptions.  A throw
    of [fetch] rejects it.  Otherwise it waits for the promise of [fetch]:
    delivered a rejection, at once or on resumption, it is rejected with
    that reason in the world of the delivery, and [json] has not run;
    delivered a response, it calls [response.json()] there and settles,
    at once or on the next resumption, with what that promise delivers:
    fulfilled with the parsed body or rejected with its reason.  It stays
    pending only while the promise it waits for has delivered nothing. *)
Theorem req_settlement
    (fetch : Request -> M Val) (json : Val -> M Val) (request : Request)
    (w : World) (schedule : Schedule) :
  let call := drive (run (CfTurnstile.req fetch json request) w) schedule in
  (forall thrown w1,
      fetch request w = (Thrown thrown, w1) ->
      call = (Settled (Thrown thrown), w1))
  /\ (forall p w1,
        fetch request w = (Returned p, w1) ->
        match delivered w1 p schedule with
        | None => exists k, call = (Suspended p k, w1)
        | Some (wa, Thrown reason, _) => call = (Settled (Thrown reason), wa)
        | Some (wa, Returned response, rest) =>
            match json response wa with
            | (Thrown thrown, wb) => call = (Settled (Thrown thrown), wb)
            | (Returned q, wb) =>
                match delivered wb q rest with
                | None => exists k, call = (Suspended q k, wb)
                | Some (wc, settlement, _) => call = (Settled settlement, wc)
                end
            end
        end).
Proof.
  cbv zeta. unfold CfTurnstile.req. rewrite run_Do. split.
  - intros thrown w1 ->. apply drive_settled.
  - intros p w1 ->. rewrite drive_await.
    destruct (delivered w1 p schedule) as [[[wa [response|reason]] rest]|];
      cbn [resume]; [| apply drive_settled | eauto].
    rewrite run_Do.
    destruct (json response wa) as [[q|thrown] wb]; [|apply drive_settled].
    rewrite drive_await.
    destruct (delivered wb q rest) as [[[wc [body|reason]] rest']|];
      cbn [resume run]; [| apply drive_settled | eauto].
    unfold ret. apply drive_settled.
Qed.

Lemma req_settlement_witness :
  run (CfTurnstile.req sample_fetch_rejected sample_json_failure
         (mkRequest CfTurnstile.ENDPOINT "POST" [])) initial_world =
    (Settled (Thrown (VStr "network down")),
     extend initial_world [PromiseObj (Rejected (VStr "network down"))])
  /\ drive (run (CfTurnstile.req sample_fetch_pending sample_json_success
                   (mkRequest "" "" [])) world_turnstile)
           [(world_response_arrived, Returned (VStr "response"))] =
       (Settled (Returned (VObj 3)),
        snd (sample_json_success (VStr "response") world_response_arrived)).
Proof.
  split.
  - exact (proj2 (req_settlement sample_fetch_rejected sample_json_failure
                    (mkRequest CfTurnstile.ENDPOINT "POST" []) initial_world [])
                 (VObj 0) _ eq_refl).
  - exact (proj2 (req_settlement sample_fetch_pending sample_json_success
                    (mkRequest "" "" []) world_turnstile
                    [(world_response_arrived, Returned (VStr "response"))])
                 (VObj 1) _ eq_refl).
Defined.

(** X19. A failure of the request is not turned into an [Err]: under every
    schedule of resumptions, when [req] ends rejected, at the call or on a
    later resumption, [validate] ends rejected with the same reason in the
    same world and creates no [Result]; and while [req] is pending on a
    promise, [validate] is pending on it with the rest of [req] followed
    by its own mapping of the response. *)
Theorem validate_propagates_rejection
    (fetch : Request -> M Val) (json : Val -> M Val)
    (ToString : Val -> M string)
    (this token ip idempotencyKey secretKey : Val) (w w0 : World)
    (schedule : Schedule) :
  get_prop this "secretKey" w = (Returned secretKey, w0) ->
  let request := CfTurnstile.request_of secretKey token ip idempotencyKey in
  let call :=
    drive (run (CfTurnstile.validate fetch json ToString
                  this token ip idempotencyKey) w) schedule in
  (forall reason w1,
      drive (run (CfTurnstile.req fetch json request) w0) schedule =
        (Settled (Thrown reason), w1) ->
      call = (Settled (Thrown reason), w1))
  /\ (forall p k w1,
        drive (run (CfTurnstile.req fetch json request) w0) schedule =
          (Suspended p k, w1) ->
        call =
          (Suspended p
             (fun y => await_call (k y) (validate_after_response ToString)),
           w1)).
Proof.
  intros Hkey. cbv zeta.
  rewrite (drive_validate fetch json ToString this token ip idempotencyKey
             secretKey w w0 schedule Hkey).
  split.
  - intros reason w1 ->. reflexivity.
  - intros p k w1 ->. reflexivity.
Qed.

Lemma validate_propagates_rejection_witness :
  run (CfTurnstile.validate sample_fetch_rejected sample_json_failure
         sample_ToString (VObj 0) (VStr "token") VUndefined VUndefined)
      world_turnstile =
    (Settled (Thrown (VStr "network down")),
     extend world_turnstile [PromiseObj (Rejected (VStr "network down"))])
  /\ drive (run (CfTurnstile.validate sample_fetch_pending sample_json_failure
                   sample_ToString (VObj 0) (VStr "token") VUndefined VUndefined)
                world_turnstile)
           [(world_request_failed, Thrown (VStr "network down"))] =
       (Settled (Thrown (VStr "network down")), world_request_failed).
Proof.
  split.
  - exact (proj1 (validate_propagates_rejection
                    sample_fetch_rejected sample_json_failure sample_ToString
                    (VObj 0) (VStr "token") VUndefined VUndefined
                    (VStr "1x0000000000000000000000000000000AA")
                    world_turnstile world_turnstile [] eq_refl)
                 (VStr "network down") _ eq_refl).
  - exact (proj1 (validate_propagates_rejection
                    sample_fetch_pending sample_json_failure sample_ToString
                    (VObj 0) (VStr "token") VUndefined VUndefined
                    (VStr "1x0000000000000000000000000000000AA")
                    world_turnstile world_turnstile
                    [(world_request_failed, Thrown (VStr "network down"))]
                    eq_refl)
                 (VStr "network down") _ eq_refl).
Defined.

(** X20. Whenever the request resolves, at the call or on a later
    resumption, with a body whose [success] is absent or falsy and that
    has no ["error-codes"], [validate] rejects with a TypeError created by
    the failing [codes.join]: neither a [TurnstileError] nor a [Result] is
    made of it. *)
Theorem validate_rejects_without_codes
    (fetch : Request -> M Val) (json : Val -> M Val)
    (ToString : Val -> M string)
    (this token ip idempotencyKey secretKey body : Val) (w w0 w1 : World)
    (c : Class) (props : list (string * Val)) (schedule : Schedule) :
  get_prop this "secretKey" w = (Returned secretKey, w0) ->
  drive (run (CfTurnstile.req fetch json
                (CfTurnstile.request_of secretKey token ip idempotencyKey)) w0)
        schedule =
    (Settled (Returned body), w1) ->
  read_object w1 body = Some (c, props) ->
  truthy (default VUndefined (lookup_prop "success" props)) = false ->
  lookup_prop "error-codes" props = None ->
  exists thrown message,
    drive (run (CfTurnstile.validate fetch json ToString
                  this token ip idempotencyKey) w) schedule =
      (Settled (Thrown thrown),
       extend w1 [Object ClsTypeError [("message", VStr message)]])
    /\ read_object w1 thrown = None
    /\ read_object (extend w1 [Object ClsTypeError [("message", VStr message)]])
                   thrown =
         Some (ClsTypeError, [("message", VStr message)]).
Proof.
  intros Hkey Hreq Hbody Hs Hc.
  rewrite (drive_validate fetch json ToString this token ip idempotencyKey
             secretKey w w0 schedule Hkey), Hreq.
  cbn [then_state]. unfold validate_after_response. cbn [run].
  rewrite (get_prop_object _ _ _ _ "success" Hbody), Hs. cbn [run].
  rewrite (get_prop_object _ _ _ _ "error-codes" Hbody), Hc.
  cbn [from_option id run].
  unfold bind, TurnstileError.new, TurnstileError.join, bind,
    throw_TypeError, bind, alloc, throw.
  eexists _, _. split; [reflexivity|]. split.
  - apply read_object_fresh. lia.
  - unfold read_object, extend. cbn [w_heap]. rewrite lookup_fresh_0.
    reflexivity.
Qed.

Lemma validate_rejects_without_codes_witness :
  exists thrown message,
    drive (run (CfTurnstile.validate sample_fetch_pending sample_json_no_codes
                  sample_ToString (VObj 0) (VStr "token") VUndefined VUndefined)
               world_turnstile)
          [(world_response_arrived, Returned (VStr "response"))] =
      (Settled (Thrown thrown),
       extend (extend world_response_arrived
                 [Object ClsObject [("success", VBool false)];
                  PromiseObj (Fulfilled (VObj 2))])
              [Object ClsTypeError [("message", VStr message)]])
    /\ read_object world_response_arrived thrown = None.
Proof.
  destruct (validate_rejects_without_codes
              sample_fetch_pending sample_json_no_codes sample_ToString
              (VObj 0) (VStr "token") VUndefined VUndefined
              (VStr "1x0000000000000000000000000000000AA") (VObj 2)
              world_turnstile world_turnstile
              (extend world_response_arrived
                 [Object ClsObject [("success", VBool false)];
                  PromiseObj (Fulfilled (VObj 2))])
              ClsObject [("success", VBool false)]
              [(world_response_arrived, Returned (VStr "response"))]
              eq_refl eq_refl eq_refl eq_refl eq_refl)
    as (thrown & message & Hrun & Hfresh & _).
  exists thrown, message. split; [exact Hrun|].
  unfold read_object in *. destruct thrown as [| | | | | | |l]; try reflexivity.
  destruct (w_heap world_response_arrived !! l) as [o|] eqn:E; [|reflexivity].
  rewrite (lookup_extend_old world_response_arrived _ l o E) in Hfresh.
  exact Hfresh.
Defined.

(** X21. [validate] uses the host only for the one request it builds: two
    hosts whose [fetch] agree on that request and that share [json] make
    it run alike. *)
Theorem validate_sends_one_request
    (fetch fetch' : Request -> M Val) (json : Val -> M Val)
    (ToString : Val -> M string)
    (this token ip idempotencyKey secretKey : Val) (w w0 : World) :
  get_prop this "secretKey" w = (Returned secretKey, w0) ->
  fetch (CfTurnstile.request_of secretKey token ip idempotencyKey) w0 =
    fetch' (CfTurnstile.request_of secretKey token ip idempotencyKey) w0 ->
  run (CfTurnstile.validate fetch json ToString this token ip idempotencyKey) w =
  run (CfTurnstile.validate fetch' json ToString this token ip idempotencyKey) w.
Proof.
  intros Hkey Hfetch. unfold CfTurnstile.validate. cbn [run]. rewrite Hkey.
  unfold CfTurnstile.req. cbn [await_call run]. rewrite Hfetch. reflexivity.
Qed.

Lemma validate_sends_one_request_witness :
  run (CfTurnstile.validate sample_fetch sample_json_success sample_ToString
         (VObj 0) (VStr "token") VUndefined VUndefined) world_turnstile =
  run (CfTurnstile.validate sample_fetch_post_only sample_json_success
         sample_ToString (VObj 0) (VStr "token") VUndefined VUndefined)
      world_turnstile.
Proof.
  exact (validate_sends_one_request
           sample_fetch sample_fetch_post_only sample_json_success sample_ToString
           (VObj 0) (VStr "token") VUndefined VUndefined
           (VStr "1x0000000000000000000000000000000AA")
           world_turnstile world_turnstile eq_refl eq_refl).
Defined.
